(** * Board state engine of pirello: reducer, undo history, normaliser

    A shallow embedding of [src/context/BoardReducer.ts] (the transition
    function [boardReducer] with its helpers) and of [normalizeState] from
    [src/context/BoardContext.tsx], followed by the properties of the
    specification that concern them.

    Conventions of the embedding.
    - A JavaScript object used as a dictionary ([cards], [cardVersions]) is a
      [gmap string _] of its own properties; an array is a [list].
    - Both dictionaries are plain objects, so a read [obj[k]] that finds no own
      property [k] continues in [Object.prototype].  The embedding follows
      this for the id that an action, or [canUndoCard], names: see
      [inherited].  Stored cards, the ids that lanes list and the ids of a
      drag event are generated ids (UUIDs): where the code has found a card
      under an id, the history under the same id is read as an own property,
      and so are the cards under the ids of a lane or of a drag event.
    - [T | null] and optional properties are [option T]; the operator [??]
      treats [null] and [undefined] alike, and so does the embedding.
    - [number] fields ([order], [version], [toIndex]) hold integers and are
      modelled in [Z]; NaN, infinities and fractions are outside the model.
      The two sums of the code, both of the form [Math.max(...) + 1], are
      rounded as double precision rounds them: see [plusOne].
    - [new Date().toISOString()] and [generateId()] (a random UUID) are the two
      impure reads of the code.  Both are taken from an explicit [World]: what
      the k-th reading of the clock and the k-th call of [generateId] return
      during the call at hand.
    - The reducer can raise a TypeError: at the property read [firstLane.id]
      in DELETE_LANE, and in UPDATE_CARD, DELETE_CARD and MOVE_CARD where they
      treat a property of [Object.prototype] as a list of versions.  It
      therefore returns an [Outcome]. *)

From Stdlib Require Import ZArith.
From stdpp Require Import gmap strings list fin_maps sorting.

Local Open Scope string_scope.
Local Open Scope Z_scope.
Local Open Scope list_scope.

(** ** Domain model ([src/types]) *)

Inductive CardType := feature | bug | task | story.
Inductive Priority := low | medium | high | urgent.

Record Label := mkLabel {
  label_id : string;
  label_name : string;
  label_color : string;
}.

(** [Card.t P] is the interface [Card] with the type of [projectId] left
    open: [Card.t string] is [Card]; [Card.t (option string)] is the persisted
    shape [Omit<Card,'projectId'> & { projectId?: string }] that
    [normalizeState] accepts. *)
Module Card.
Record t (P : Type) := mk {
  id : string;
  projectId : P;
  title : string;
  description : string;
  type : CardType;
  priority : Priority;
  dueDate : option string;
  labels : list Label;
  assignee : option string;
  laneId : string;
  order : Z;
  isDeleted : bool;
  createdAt : string;
  updatedAt : string;
}.
Arguments mk {P}.
Arguments id {P}.
Arguments projectId {P}.
Arguments title {P}.
Arguments description {P}.
Arguments type {P}.
Arguments priority {P}.
Arguments dueDate {P}.
Arguments labels {P}.
Arguments assignee {P}.
Arguments laneId {P}.
Arguments order {P}.
Arguments isDeleted {P}.
Arguments createdAt {P}.
Arguments updatedAt {P}.

(** [{ ...card, projectId: p }] *)
Definition with_projectId {P Q} (p : Q) (c : t P) : t Q :=
  mk (id c) p (title c) (description c) (type c) (priority c) (dueDate c)
     (labels c) (assignee c) (laneId c) (order c) (isDeleted c)
     (createdAt c) (updatedAt c).

(** [{ ...card, laneId: l }] *)
Definition with_laneId {P} (l : string) (c : t P) : t P :=
  mk (id c) (projectId c) (title c) (description c) (type c) (priority c)
     (dueDate c) (labels c) (assignee c) l (order c) (isDeleted c)
     (createdAt c) (updatedAt c).

(** [{ ...card, isDeleted: b }] *)
Definition with_isDeleted {P} (b : bool) (c : t P) : t P :=
  mk (id c) (projectId c) (title c) (description c) (type c) (priority c)
     (dueDate c) (labels c) (assignee c) (laneId c) (order c) b
     (createdAt c) (updatedAt c).

(** [{ ...card, updatedAt: u }] *)
Definition with_updatedAt {P} (u : string) (c : t P) : t P :=
  mk (id c) (projectId c) (title c) (description c) (type c) (priority c)
     (dueDate c) (labels c) (assignee c) (laneId c) (order c) (isDeleted c)
     (createdAt c) u.
End Card.

(** [Omit<Card, 'id'>], the payload of a version snapshot. *)
Module CardData.
Record t (P : Type) := mk {
  projectId : P;
  title : string;
  description : string;
  type : CardType;
  priority : Priority;
  dueDate : option string;
  labels : list Label;
  assignee : option string;
  laneId : string;
  order : Z;
  isDeleted : bool;
  createdAt : string;
  updatedAt : string;
}.
Arguments mk {P}.
Arguments projectId {P}.
Arguments title {P}.
Arguments description {P}.
Arguments type {P}.
Arguments priority {P}.
Arguments dueDate {P}.
Arguments labels {P}.
Arguments assignee {P}.
Arguments laneId {P}.
Arguments order {P}.
Arguments isDeleted {P}.
Arguments createdAt {P}.
Arguments updatedAt {P}.

(** [{ ...data, projectId: p }] *)
Definition with_projectId {P Q} (p : Q) (d : t P) : t Q :=
  mk p (title d) (description d) (type d) (priority d) (dueDate d)
     (labels d) (assignee d) (laneId d) (order d) (isDeleted d)
     (createdAt d) (updatedAt d).
End CardData.

Module CardVersion.
Record t (P : Type) := mk {
  id : string;
  cardId : string;
  version : Z;
  data : CardData.t P;
  timestamp : string;
}.
Arguments mk {P}.
Arguments id {P}.
Arguments cardId {P}.
Arguments version {P}.
Arguments data {P}.
Arguments timestamp {P}.

(** [{ ...version, data: d }] *)
Definition with_data {P Q} (d : CardData.t Q) (v : t P) : t Q :=
  mk (id v) (cardId v) (version v) d (timestamp v).
End CardVersion.

Module Lane.
Record t := mk {
  id : string;
  title : string;
  order : Z;
  cardIds : list string;
}.

(** [{ ...lane, cardIds: ids }] *)
Definition with_cardIds (ids : list string) (l : t) : t :=
  mk (id l) (title l) (order l) ids.

(** [{ ...lane, order: o }] *)
Definition with_order (o : Z) (l : t) : t :=
  mk (id l) (title l) o (cardIds l).
End Lane.

(** [Project.t T] is the interface [Project] with the type of [title] left
    open: [string] in a board state, [option string] in a persisted blob. *)
Module Project.
Record t (T : Type) := mk {
  id : string;
  title : T;
  thumbnailUrl : option string;
  lanes : list Lane.t;
  createdAt : string;
  updatedAt : string;
}.
Arguments mk {T}.
Arguments id {T}.
Arguments title {T}.
Arguments thumbnailUrl {T}.
Arguments lanes {T}.
Arguments createdAt {T}.
Arguments updatedAt {T}.

(** [{ ...project, updatedAt: u }] *)
Definition touch {T} (u : string) (p : t T) : t T :=
  mk (id p) (title p) (thumbnailUrl p) (lanes p) (createdAt p) u.

(** [{ ...project, lanes: ls, updatedAt: u }] *)
Definition with_lanes {T} (ls : list Lane.t) (u : string) (p : t T) : t T :=
  mk (id p) (title p) (thumbnailUrl p) ls (createdAt p) u.
End Project.

Abbreviation Card := (Card.t string).
Abbreviation CardVersion := (CardVersion.t string).
Abbreviation Project := (Project.t string).

Record BoardState := mkState {
  projects : list Project;
  activeProjectId : option string;
  cards : gmap string Card;
  cardVersions : gmap string (list CardVersion);
  isLoading : bool;
  error : option string;
}.

(** [{ ...state, error: e }] *)
Definition with_error (e : option string) (s : BoardState) : BoardState :=
  mkState (projects s) (activeProjectId s) (cards s) (cardVersions s)
          (isLoading s) e.

(** ** Action payloads

    [Partial<X>] is a record of optional fields; an absent property is
    [None].  (A property present with the value [undefined] is outside the
    model.)  A nullable field such as [dueDate] becomes a nested option:
    [Some None] sets it to [null]. *)

Module CardUpdates.
Record t := mk {
  id : option string;
  projectId : option string;
  title : option string;
  description : option string;
  type : option CardType;
  priority : option Priority;
  dueDate : option (option string);
  labels : option (list Label);
  assignee : option (option string);
  laneId : option string;
  order : option Z;
  isDeleted : option bool;
  createdAt : option string;
  updatedAt : option string;
}.

Definition empty : t :=
  mk None None None None None None None None None None None None None None.

(** [{ ...card, ...updates }] *)
Definition apply (u : t) (c : Card) : Card :=
  Card.mk (default (Card.id c) (id u))
          (default (Card.projectId c) (projectId u))
          (default (Card.title c) (title u))
          (default (Card.description c) (description u))
          (default (Card.type c) (type u))
          (default (Card.priority c) (priority u))
          (default (Card.dueDate c) (dueDate u))
          (default (Card.labels c) (labels u))
          (default (Card.assignee c) (assignee u))
          (default (Card.laneId c) (laneId u))
          (default (Card.order c) (order u))
          (default (Card.isDeleted c) (isDeleted u))
          (default (Card.createdAt c) (createdAt u))
          (default (Card.updatedAt c) (updatedAt u)).
End CardUpdates.

Module LaneUpdates.
Record t := mk {
  id : option string;
  title : option string;
  order : option Z;
  cardIds : option (list string);
}.

(** [{ ...lane, ...updates }] *)
Definition apply (u : t) (l : Lane.t) : Lane.t :=
  Lane.mk (default (Lane.id l) (id u))
          (default (Lane.title l) (title u))
          (default (Lane.order l) (order u))
          (default (Lane.cardIds l) (cardIds u)).
End LaneUpdates.

Module ProjectUpdates.
Record t := mk {
  id : option string;
  title : option string;
  thumbnailUrl : option (option string);
  lanes : option (list Lane.t);
  createdAt : option string;
  updatedAt : option string;
}.

(** [{ ...project, ...updates }] *)
Definition apply (u : t) (p : Project) : Project :=
  Project.mk (default (Project.id p) (id u))
             (default (Project.title p) (title u))
             (default (Project.thumbnailUrl p) (thumbnailUrl u))
             (default (Project.lanes p) (lanes u))
             (default (Project.createdAt p) (createdAt u))
             (default (Project.updatedAt p) (updatedAt u)).
End ProjectUpdates.

(** Payload of ADD_CARD:
    [Omit<Card, 'id' | 'createdAt' | 'updatedAt' | 'isDeleted' | 'projectId'>]. *)
Module NewCard.
Record t := mk {
  title : string;
  description : string;
  type : CardType;
  priority : Priority;
  dueDate : option string;
  labels : list Label;
  assignee : option string;
  laneId : string;
  order : Z;
}.
End NewCard.

(** The tagged union [BoardAction].  [UNKNOWN] stands for an object whose
    [type] is none of the recognised tags (the [default] branch). *)
Inductive BoardAction :=
  | ADD_CARD (payload : NewCard.t)
  | UPDATE_CARD (id : string) (updates : CardUpdates.t)
  | DELETE_CARD (id : string)
  | RESTORE_CARD (id : string)
  | MOVE_CARD (cardId toLaneId : string) (toIndex : Z)
  | REORDER_CARDS (laneId : string) (cardIds : list string)
  | UNDO_CARD (cardId : string)
  | ADD_LANE (title : string)
  | UPDATE_LANE (id : string) (updates : LaneUpdates.t)
  | DELETE_LANE (id : string)
  | REORDER_LANES (laneIds : list string)
  | ADD_PROJECT (title : string) (thumbnailUrl : option string)
  | UPDATE_PROJECT (id : string) (updates : ProjectUpdates.t)
  | DELETE_PROJECT (id : string)
  | SET_ACTIVE_PROJECT (id : string)
  | LOAD_STATE (payload : BoardState)
  | SET_ERROR (payload : option string)
  | UNKNOWN (type : string).

(** ** The environment of one call *)

Record World := mkWorld {
  clock : nat → string;       (* k-th new Date().toISOString() *)
  generateId : nat → string;  (* k-th generateId() *)
}.

Inductive Outcome :=
  | Returns (s : BoardState)
  | Throws                    (* TypeError *)
  | IllTyped.                 (* returns an object that is no BoardState: it
                                 holds a snapshot without the fields of a
                                 card *)

(** ** Property reads and sums of JavaScript *)

(** What a plain object inherits: the properties of [Object.prototype].  Each
    is a function, given here by its [length], except [__proto__], which
    reads as the prototype object itself and has no [length]. *)
Inductive Inherited :=
  | functionOf (length : nat)
  | prototypeObject.

Definition OBJECT_PROTOTYPE : list (string * Inherited) :=
  [("constructor", functionOf 1);
   ("__defineGetter__", functionOf 2);
   ("__defineSetter__", functionOf 2);
   ("hasOwnProperty", functionOf 1);
   ("__lookupGetter__", functionOf 1);
   ("__lookupSetter__", functionOf 1);
   ("isPrototypeOf", functionOf 1);
   ("propertyIsEnumerable", functionOf 1);
   ("toString", functionOf 0);
   ("valueOf", functionOf 0);
   ("toLocaleString", functionOf 0);
   ("__proto__", prototypeObject)].

(** What [obj[k]] yields when [obj] has no own property [k]; [None] is
    [undefined]. *)
Definition inherited (k : string) : option Inherited :=
  snd <$> find (λ entry, bool_decide (entry.1 = k)) OBJECT_PROTOTYPE.

(** The nearest double of an integer, ties to the even significand (53
    bits); every integer of absolute value below 2^53 is a double.
    (Integers beyond the largest finite double are outside the model.) *)
Definition roundToDouble (z : Z) : Z :=
  let a := Z.abs z in
  if a <? 2 ^ 53 then z
  else
    let e := Z.log2 a - 52 in
    let q := a / 2 ^ e in
    let r := a mod 2 ^ e in
    let half := 2 ^ (e - 1) in
    let q' := if r <? half then q
              else if half <? r then q + 1
              else if Z.even q then q else q + 1 in
    Z.sgn z * (q' * 2 ^ e).

(** [x + 1] in double precision. *)
Definition plusOne (x : Z) : Z := roundToDouble (x + 1).

Arguments inherited : simpl never.
Arguments roundToDouble : simpl never.
Arguments plusOne : simpl never.

(** ** Helpers of the reducer *)

(** [DEFAULT_LANES] of [types/lane.ts], as [Omit<Lane,'id'>]. *)
Definition DEFAULT_LANES : list (string * Z * list string) :=
  [("Todo", 0, []); ("Doing", 1, []); ("Done", 2, [])].

(** [createDefaultLanes]: the k-th default lane receives the identifier of
    the call of [generateId] numbered [first + k]. *)
Definition createDefaultLanes (w : World) (first : nat) : list Lane.t :=
  imap (λ k '(title, order, cardIds),
          Lane.mk (generateId w (first + k)%nat) title order cardIds)
       DEFAULT_LANES.

(** [Math.max(...xs) + 1] over the recorded version numbers, or [1]. *)
Definition nextVersion (existingVersions : list CardVersion) : Z :=
  match existingVersions with
  | [] => 1
  | v :: vs =>
      plusOne (foldr Z.max (CardVersion.version v) (CardVersion.version <$> vs))
  end.

(** Called by the reducer after it has read the clock once, and at most once
    per call: its own reading of the clock is the second, its [generateId]
    the first. *)
Definition createCardVersion (w : World) (card : Card)
    (existingVersions : list CardVersion) : CardVersion :=
  CardVersion.mk
    (generateId w 0)
    (Card.id card)
    (nextVersion existingVersions)
    (CardData.mk (Card.projectId card) (Card.title card)
       (Card.description card) (Card.type card) (Card.priority card)
       (Card.dueDate card) (Card.labels card) (Card.assignee card)
       (Card.laneId card) (Card.order card) (Card.isDeleted card)
       (Card.createdAt card) (Card.updatedAt card))
    (clock w 1).

(** [!state.activeProjectId] is true for [null] and for the empty string. *)
Definition getActiveProject (state : BoardState) : option Project :=
  match activeProjectId state with
  | None => None
  | Some aid =>
      if bool_decide (aid = "") then None
      else find (λ project, bool_decide (Project.id project = aid))
                (projects state)
  end.

Definition mapActiveProject (state : BoardState)
    (updater : Project → Project) : option (list Project) :=
  match getActiveProject state with
  | None => None
  | Some activeProject =>
      let updatedProject := updater activeProject in
      Some ((λ project,
               if bool_decide (Project.id project = Project.id activeProject)
               then updatedProject else project) <$> projects state)
  end.

(** [xs.splice(start, 0, x)] for an integer [start]: a negative [start]
    counts from the end, and the position is clamped to [0 .. length]. *)
Definition splice_insert (xs : list string) (start : Z) (x : string)
    : list string :=
  let len := Z.of_nat (length xs) in
  let k := if start <? 0 then Z.max (len + start) 0 else Z.min start len in
  take (Z.to_nat k) xs ++ x :: drop (Z.to_nat k) xs.

(** [{ id: cardId, ...data, updatedAt: now }] *)
Definition restoreFromData (cardId : string) (d : CardData.t string)
    (now : string) : Card :=
  Card.mk cardId (CardData.projectId d) (CardData.title d)
    (CardData.description d) (CardData.type d) (CardData.priority d)
    (CardData.dueDate d) (CardData.labels d) (CardData.assignee d)
    (CardData.laneId d) (CardData.order d) (CardData.isDeleted d)
    (CardData.createdAt d) now.

(** The [for] loop of DELETE_LANE over [laneToDelete.cardIds], run on the copy
    [updatedCards].  [firstLane] is [remainingLanes[0]], which is [undefined]
    when no lane remains; reading [firstLane.id] then raises ([None]). *)
Fixpoint reassignCards (firstLane : option Lane.t) (now : string)
    (cardIds : list string) (updatedCards : gmap string Card)
    : option (gmap string Card) :=
  match cardIds with
  | [] => Some updatedCards
  | cardId :: rest =>
      match updatedCards !! cardId with
      | None => reassignCards firstLane now rest updatedCards
      | Some card =>
          match firstLane with
          | None => None
          | Some first =>
              reassignCards firstLane now rest
                (<[cardId := Card.with_updatedAt now
                               (Card.with_laneId (Lane.id first) card)]>
                   updatedCards)
          end
      end
  end.

(** [new Map(lanes.map(l => [l.id, l]))]: a later lane overrides an earlier
    one with the same id. *)
Definition laneMapOf (lanes : list Lane.t) : gmap string Lane.t :=
  foldl (λ m l, <[Lane.id l := l]> m) ∅ lanes.

(** The loop of DELETE_PROJECT: a card is dropped when its [projectId] is the
    deleted project's; its history is dropped under the same key. *)
Definition keepsCard (pid : string) (entry : string * Card) : Prop :=
  Card.projectId entry.2 ≠ pid.

Definition keepsVersions (pid : string) (cards : gmap string Card)
    (entry : string * list CardVersion) : Prop :=
  match cards !! entry.1 with
  | Some card => Card.projectId card ≠ pid
  | None => True
  end.

#[global] Instance keepsCard_dec pid entry : Decision (keepsCard pid entry).
Proof. unfold keepsCard. apply _. Defined.

#[global] Instance keepsVersions_dec pid cards entry :
  Decision (keepsVersions pid cards entry).
Proof. unfold keepsVersions. destruct (cards !! entry.1); apply _. Defined.

(** UPDATE_CARD, DELETE_CARD and MOVE_CARD once [state.cards[id]] has found
    no card but [found], a property of [Object.prototype]: it is truthy, so
    the guard [!existingCard] lets it pass.  [state.cardVersions[id]] is then
    an own history, or [found] again.
    - An own history: [createCardVersion] records a snapshot of [found], which
      has none of the fields of a card; past the active-project guard the
      state returned holds that snapshot.
    - [found] is a function with parameters: [existingVersions.length > 0]
      holds and [existingVersions.map] is no function; [createCardVersion]
      raises.
    - [found] has length 0 or none: the snapshot is numbered 1, and past the
      active-project guard the spread [...existingVersions] raises, since
      [found] is not iterable. *)
Definition inheritedCardStep (state : BoardState) (id : string)
    (found : Inherited) : Outcome :=
  match cardVersions state !! id with
  | Some _ =>
      match getActiveProject state with
      | None => Returns state
      | Some _ => IllTyped
      end
  | None =>
      match found with
      | functionOf (S _) => Throws
      | _ =>
          match getActiveProject state with
          | None => Returns state
          | Some _ => Throws
          end
      end
  end.

Arguments inheritedCardStep : simpl never.

(** ** The reducer ([boardReducer] of [BoardReducer.ts]) *)

Definition boardReducer (w : World) (state : BoardState)
    (action : BoardAction) : Outcome :=
  let now := clock w 0 in
  match action with

  | ADD_CARD payload =>
      match getActiveProject state with
      | None => Returns state
      | Some activeProject =>
          let newCard : Card :=
            Card.mk (generateId w 0) (Project.id activeProject)
              (NewCard.title payload) (NewCard.description payload)
              (NewCard.type payload) (NewCard.priority payload)
              (NewCard.dueDate payload) (NewCard.labels payload)
              (NewCard.assignee payload) (NewCard.laneId payload)
              (NewCard.order payload) false now now in
          let updatedLanes :=
            (λ lane,
               if bool_decide (Lane.id lane = NewCard.laneId payload)
               then Lane.with_cardIds (Lane.cardIds lane ++ [Card.id newCard])
                                      lane
               else lane) <$> Project.lanes activeProject in
          match mapActiveProject state (Project.with_lanes updatedLanes now) with
          | None => Returns state
          | Some updatedProjects =>
              Returns (mkState updatedProjects (activeProjectId state)
                         (<[Card.id newCard := newCard]> (cards state))
                         (cardVersions state) (isLoading state) (error state))
          end
      end

  | UPDATE_CARD id updates =>
      match cards state !! id with
      | None =>
          match inherited id with
          | None => Returns state
          | Some found => inheritedCardStep state id found
          end
      | Some existingCard =>
          let existingVersions := default [] (cardVersions state !! id) in
          let newVersion := createCardVersion w existingCard existingVersions in
          let updatedCard :=
            Card.with_updatedAt now (CardUpdates.apply updates existingCard) in
          match mapActiveProject state (Project.touch now) with
          | None => Returns state
          | Some updatedProjects =>
              Returns (mkState updatedProjects (activeProjectId state)
                         (<[id := updatedCard]> (cards state))
                         (<[id := existingVersions ++ [newVersion]]>
                            (cardVersions state))
                         (isLoading state) (error state))
          end
      end

  | DELETE_CARD id =>
      match cards state !! id with
      | None =>
          match inherited id with
          | None => Returns state
          | Some found => inheritedCardStep state id found
          end
      | Some existingCard =>
          let existingVersions := default [] (cardVersions state !! id) in
          let newVersion := createCardVersion w existingCard existingVersions in
          let updatedCard :=
            Card.with_updatedAt now (Card.with_isDeleted true existingCard) in
          match getActiveProject state with
          | None => Returns state
          | Some activeProject =>
              let updatedLanes :=
                (λ lane,
                   if bool_decide (Lane.id lane = Card.laneId existingCard)
                   then Lane.with_cardIds
                          (filter (λ cardId, cardId ≠ id) (Lane.cardIds lane))
                          lane
                   else lane) <$> Project.lanes activeProject in
              Returns (mkState
                         (default (projects state)
                            (mapActiveProject state
                               (Project.with_lanes updatedLanes now)))
                         (activeProjectId state)
                         (<[id := updatedCard]> (cards state))
                         (<[id := existingVersions ++ [newVersion]]>
                            (cardVersions state))
                         (isLoading state) (error state))
          end
      end

  | RESTORE_CARD id =>
      match cards state !! id with
      | None => Returns state   (* also for an inherited property: it has no
                                   [isDeleted] *)
      | Some existingCard =>
          if negb (Card.isDeleted existingCard) then Returns state
          else
            let restoredCard :=
              Card.with_updatedAt now (Card.with_isDeleted false existingCard) in
            match getActiveProject state with
            | None => Returns state
            | Some activeProject =>
                let updatedLanes :=
                  (λ lane,
                     if bool_decide (Lane.id lane = Card.laneId existingCard)
                     then Lane.with_cardIds (Lane.cardIds lane ++ [id]) lane
                     else lane) <$> Project.lanes activeProject in
                Returns (mkState
                           (default (projects state)
                              (mapActiveProject state
                                 (Project.with_lanes updatedLanes now)))
                           (activeProjectId state)
                           (<[id := restoredCard]> (cards state))
                           (cardVersions state) (isLoading state) (error state))
            end
      end

  | MOVE_CARD cardId toLaneId toIndex =>
      match cards state !! cardId with
      | None =>
          match inherited cardId with
          | None => Returns state
          | Some found => inheritedCardStep state cardId found
          end
      | Some card =>
          let fromLaneId := Card.laneId card in
          let existingVersions := default [] (cardVersions state !! cardId) in
          let newVersion := createCardVersion w card existingVersions in
          let updatedCard :=
            Card.with_updatedAt now (Card.with_laneId toLaneId card) in
          match getActiveProject state with
          | None => Returns state
          | Some activeProject =>
              let updatedLanes :=
                (λ lane,
                   if bool_decide (Lane.id lane = fromLaneId)
                      && bool_decide (fromLaneId ≠ toLaneId)
                   then Lane.with_cardIds
                          (filter (λ id, id ≠ cardId) (Lane.cardIds lane)) lane
                   else if bool_decide (Lane.id lane = toLaneId)
                   then
                     let newCardIds :=
                       filter (λ id, id ≠ cardId) (Lane.cardIds lane) in
                     Lane.with_cardIds (splice_insert newCardIds toIndex cardId)
                                       lane
                   else lane) <$> Project.lanes activeProject in
              Returns (mkState
                         (default (projects state)
                            (mapActiveProject state
                               (Project.with_lanes updatedLanes now)))
                         (activeProjectId state)
                         (<[cardId := updatedCard]> (cards state))
                         (<[cardId := existingVersions ++ [newVersion]]>
                            (cardVersions state))
                         (isLoading state) (error state))
          end
      end

  | REORDER_CARDS laneId cardIds =>
      match getActiveProject state with
      | None => Returns state
      | Some activeProject =>
          let updatedLanes :=
            (λ lane,
               if bool_decide (Lane.id lane = laneId)
               then Lane.with_cardIds cardIds lane
               else lane) <$> Project.lanes activeProject in
          Returns (mkState
                     (default (projects state)
                        (mapActiveProject state
                           (Project.with_lanes updatedLanes now)))
                     (activeProjectId state) (cards state)
                     (cardVersions state) (isLoading state) (error state))
      end

  | UNDO_CARD cardId =>
      match cardVersions state !! cardId with
      | None => Returns state   (* also for an inherited property [f]: either
                                   [f.length === 0], or [f[f.length - 1]] is
                                   [undefined], whether [f.length] is a
                                   number or [undefined] *)
      | Some versions =>
          match last versions with
          | None => Returns state
          | Some previousVersion =>
              let restoredCard :=
                restoreFromData cardId (CardVersion.data previousVersion) now in
              let currentCard := cards state !! cardId in
              match getActiveProject state with
              | None => Returns state
              | Some activeProject =>
                  let updatedLanes :=
                    match currentCard with
                    | Some currentCard =>
                        if bool_decide (Card.laneId currentCard
                                        ≠ Card.laneId restoredCard)
                        then
                          (λ lane,
                             if bool_decide
                                  (Lane.id lane = Card.laneId currentCard)
                             then Lane.with_cardIds
                                    (filter (λ id, id ≠ cardId)
                                            (Lane.cardIds lane)) lane
                             else if bool_decide
                                       (Lane.id lane = Card.laneId restoredCard)
                             then Lane.with_cardIds
                                    (Lane.cardIds lane ++ [cardId]) lane
                             else lane) <$> Project.lanes activeProject
                        else Project.lanes activeProject
                    | None =>
                        match inherited cardId with
                        | None => Project.lanes activeProject
                        | Some _ =>
                            (* truthy, and its [laneId] is [undefined] *)
                            (λ lane,
                               if bool_decide
                                    (Lane.id lane = Card.laneId restoredCard)
                               then Lane.with_cardIds
                                      (Lane.cardIds lane ++ [cardId]) lane
                               else lane) <$> Project.lanes activeProject
                        end
                    end in
                  let remainingVersions :=
                    take (length versions - 1)%nat versions in
                  Returns (mkState
                             (default (projects state)
                                (mapActiveProject state
                                   (Project.with_lanes updatedLanes now)))
                             (activeProjectId state)
                             (<[cardId := restoredCard]> (cards state))
                             (<[cardId := remainingVersions]>
                                (cardVersions state))
                             (isLoading state) (error state))
              end
          end
      end

  | ADD_LANE title =>
      match getActiveProject state with
      | None => Returns state
      | Some activeProject =>
          let maxOrder :=
            foldr Z.max (-1) (Lane.order <$> Project.lanes activeProject) in
          let newLane := Lane.mk (generateId w 0) title (plusOne maxOrder) [] in
          Returns (mkState
                     (default (projects state)
                        (mapActiveProject state
                           (Project.with_lanes
                              (Project.lanes activeProject ++ [newLane]) now)))
                     (activeProjectId state) (cards state)
                     (cardVersions state) (isLoading state) (error state))
      end

  | UPDATE_LANE id updates =>
      match getActiveProject state with
      | None => Returns state
      | Some activeProject =>
          let updatedLanes :=
            (λ lane,
               if bool_decide (Lane.id lane = id)
               then LaneUpdates.apply updates lane
               else lane) <$> Project.lanes activeProject in
          Returns (mkState
                     (default (projects state)
                        (mapActiveProject state
                           (Project.with_lanes updatedLanes now)))
                     (activeProjectId state) (cards state)
                     (cardVersions state) (isLoading state) (error state))
      end

  | DELETE_LANE id =>
      match getActiveProject state with
      | None => Returns state
      | Some activeProject =>
          if (length (Project.lanes activeProject) <=? 1)%nat
          then Returns (with_error (Some "Cannot delete the last lane") state)
          else
            match find (λ l, bool_decide (Lane.id l = id))
                       (Project.lanes activeProject) with
            | None => Returns state
            | Some laneToDelete =>
                let remainingLanes :=
                  filter (λ l, Lane.id l ≠ id) (Project.lanes activeProject) in
                let firstLane := head remainingLanes in
                match reassignCards firstLane now (Lane.cardIds laneToDelete)
                                    (cards state) with
                | None => Throws
                | Some updatedCards =>
                    let updatedLanes :=
                      match firstLane with
                      | None => []
                      | Some firstLane =>
                          imap (λ index lane,
                                  if bool_decide (Lane.id lane = Lane.id firstLane)
                                  then Lane.mk (Lane.id lane) (Lane.title lane)
                                         (Z.of_nat index)
                                         (Lane.cardIds lane
                                            ++ Lane.cardIds laneToDelete)
                                  else Lane.with_order (Z.of_nat index) lane)
                               remainingLanes
                      end in
                    Returns (mkState
                               (default (projects state)
                                  (mapActiveProject state
                                     (Project.with_lanes updatedLanes now)))
                               (activeProjectId state) updatedCards
                               (cardVersions state) (isLoading state)
                               (error state))
                end
            end
      end

  | REORDER_LANES laneIds =>
      match getActiveProject state with
      | None => Returns state
      | Some activeProject =>
          let laneMap := laneMapOf (Project.lanes activeProject) in
          let reorderedLanes :=
            omap (λ lane, lane)
              (imap (λ index id,
                       Lane.with_order (Z.of_nat index) <$> laneMap !! id)
                    laneIds) in
          Returns (mkState
                     (default (projects state)
                        (mapActiveProject state
                           (Project.with_lanes reorderedLanes now)))
                     (activeProjectId state) (cards state)
                     (cardVersions state) (isLoading state) (error state))
      end

  | ADD_PROJECT title thumbnailUrl =>
      let newProject : Project :=
        Project.mk (generateId w 0) title thumbnailUrl
                   (createDefaultLanes w 1) now now in
      Returns (mkState (projects state ++ [newProject])
                 (Some (Project.id newProject)) (cards state)
                 (cardVersions state) (isLoading state) (error state))

  | UPDATE_PROJECT id updates =>
      Returns (mkState
                 ((λ project,
                     if bool_decide (Project.id project = id)
                     then Project.touch now
                            (ProjectUpdates.apply updates project)
                     else project) <$> projects state)
                 (activeProjectId state) (cards state) (cardVersions state)
                 (isLoading state) (error state))

  | DELETE_PROJECT id =>
      let remainingProjects :=
        filter (λ project, Project.id project ≠ id) (projects state) in
      if bool_decide (length remainingProjects = length (projects state))
      then Returns state
      else if bool_decide (length remainingProjects = 0%nat)
      then Returns (with_error (Some "Cannot delete the last project") state)
      else
        let updatedCards := filter (keepsCard id) (cards state) in
        let updatedVersions :=
          filter (keepsVersions id (cards state)) (cardVersions state) in
        let nextActiveProjectId :=
          if bool_decide (activeProjectId state = Some id)
          then Project.id <$> head remainingProjects
          else activeProjectId state in
        Returns (mkState remainingProjects nextActiveProjectId updatedCards
                   updatedVersions (isLoading state) (error state))

  | SET_ACTIVE_PROJECT id =>
      Returns (mkState (projects state) (Some id) (cards state)
                 (cardVersions state) (isLoading state) (error state))

  | LOAD_STATE payload =>
      Returns (mkState (projects payload) (activeProjectId payload)
                 (cards payload) (cardVersions payload) false (error payload))

  | SET_ERROR payload => Returns (with_error payload state)

  | UNKNOWN _ => Returns state
  end.

(** ** The normaliser ([normalizeState] of [BoardContext.tsx])

    The argument has the declared type [BoardState | LegacyBoardState] of a
    persisted blob, where every property that the code defends with [??] may
    be absent.  [Persisted.t] is the multi-project shape (it has a [projects]
    property), [Legacy.t] the single-project one. *)

Abbreviation RawCard := (Card.t (option string)).
Abbreviation RawCardVersion := (CardVersion.t (option string)).
Abbreviation RawProject := (Project.t (option string)).

Module Persisted.
Record t := mk {
  projects : list RawProject;
  activeProjectId : option string;
  cards : gmap string RawCard;
  cardVersions : option (gmap string (list RawCardVersion));
  isLoading : option bool;
  error : option string;
}.
End Persisted.

Module LegacyProject.
Record t := mk {
  id : string;
  name : option string;
  title : option string;
  lanes : option (list Lane.t);
  createdAt : option string;
  updatedAt : option string;
}.
End LegacyProject.

Module Legacy.
Record t := mk {
  project : LegacyProject.t;
  cards : option (gmap string RawCard);
  cardVersions : option (gmap string (list RawCardVersion));
  isLoading : option bool;
  error : option string;
}.
End Legacy.

Inductive RawState :=
  | Current (raw : Persisted.t)   (* 'projects' in raw *)
  | Legacy (raw : Legacy.t).

(** [a ?? b] between two nullable values. *)
Definition nullish {A} (a b : option A) : option A :=
  match a with
  | Some x => Some x
  | None => b
  end.

(** [{ ...card, projectId: card.projectId ?? fallback }] *)
Definition backfillCard (fallback : string) (card : RawCard) : Card :=
  Card.with_projectId (default fallback (Card.projectId card)) card.

(** [{ ...version, data: { ...version.data,
                           projectId: version.data.projectId ?? projectId } }] *)
Definition backfillVersion (projectId : string) (version : RawCardVersion)
    : CardVersion :=
  CardVersion.with_data
    (CardData.with_projectId
       (default projectId (CardData.projectId (CardVersion.data version)))
       (CardVersion.data version))
    version.

(** The [Object.fromEntries(Object.entries(raw.cardVersions ?? {}).map(...))]
    of either branch; [fallback] is [activeProjectId ?? ''] in the first and
    [normalizedProject.id] in the second. *)
Definition backfillVersions (cards : gmap string Card) (fallback : string)
    (raw : option (gmap string (list RawCardVersion)))
    : gmap string (list CardVersion) :=
  map_imap
    (λ (cardId : string) (versions : list RawCardVersion),
       let projectId :=
         default fallback (Card.projectId <$> cards !! cardId) in
       Some (backfillVersion projectId <$> versions))
    (default ∅ raw).

Definition normalizeState (w : World) (raw : RawState) : BoardState :=
  match raw with
  | Current raw =>
      let projects : list Project :=
        (λ project : RawProject,
           Project.mk (Project.id project)
             (default "Untitled project" (Project.title project))
             (Project.thumbnailUrl project) (Project.lanes project)
             (Project.createdAt project) (Project.updatedAt project))
          <$> Persisted.projects raw in
      let candidateProjectId :=
        nullish (Persisted.activeProjectId raw) (Project.id <$> head projects) in
      let activeProjectId :=
        if existsb (λ project,
                      bool_decide (Some (Project.id project) = candidateProjectId))
                   projects
        then candidateProjectId
        else Project.id <$> head projects in
      let cards :=
        backfillCard (default "" activeProjectId) <$> Persisted.cards raw in
      let cardVersions :=
        backfillVersions cards (default "" activeProjectId)
                         (Persisted.cardVersions raw) in
      mkState projects activeProjectId cards cardVersions
              (default false (Persisted.isLoading raw)) (Persisted.error raw)
  | Legacy raw =>
      let project := Legacy.project raw in
      let normalizedProject : Project :=
        Project.mk (LegacyProject.id project)
          (default "Untitled project"
             (nullish (LegacyProject.title project) (LegacyProject.name project)))
          None
          (default (createDefaultLanes w 0) (LegacyProject.lanes project))
          (default (clock w 0) (LegacyProject.createdAt project))
          (default (clock w (match LegacyProject.createdAt project with
                             | Some _ => 0
                             | None => 1
                             end)%nat)
                   (LegacyProject.updatedAt project)) in
      let cards :=
        backfillCard (Project.id normalizedProject)
          <$> default ∅ (Legacy.cards raw) in
      let cardVersions :=
        backfillVersions cards (Project.id normalizedProject)
                         (Legacy.cardVersions raw) in
      mkState [normalizedProject] (Some (Project.id normalizedProject))
              cards cardVersions
              (default false (Legacy.isLoading raw)) (Legacy.error raw)
  end.

(** A board state read back as a persisted blob of the current shape, as
    happens when the result of [normalizeState] is normalised again: every
    optional property is present. *)
Definition persistedProject (project : Project) : RawProject :=
  Project.mk (Project.id project) (Some (Project.title project))
    (Project.thumbnailUrl project) (Project.lanes project)
    (Project.createdAt project) (Project.updatedAt project).

Definition persistedCard (card : Card) : RawCard :=
  Card.with_projectId (Some (Card.projectId card)) card.

Definition persistedVersion (version : CardVersion) : RawCardVersion :=
  CardVersion.with_data
    (CardData.with_projectId
       (Some (CardData.projectId (CardVersion.data version)))
       (CardVersion.data version))
    version.

Definition persisted (s : BoardState) : RawState :=
  Current
    (Persisted.mk
       (persistedProject <$> projects s)
       (activeProjectId s)
       (persistedCard <$> cards s)
       (Some (fmap (M := list) persistedVersion <$> cardVersions s))
       (Some (isLoading s))
       (error s)).

(** ** Runs, invariants and sample data *)

(** A sequence of actions, each dispatched in its own [World]; the run ends
    at the first outcome that is no board state. *)
Fixpoint runActions (state : BoardState) (steps : list (World * BoardAction))
    : Outcome :=
  match steps with
  | [] => Returns state
  | (w, action) :: rest =>
      match boardReducer w state action with
      | Returns state' => runActions state' rest
      | failure => failure
      end
  end.

(** The lanes, over all projects, whose [cardIds] mention [cardId]; each is
    reported as (id of the project, id of the lane). *)
Definition lanesHolding (state : BoardState) (cardId : string)
    : list (string * string) :=
  project ← projects state;
  lane ← Project.lanes project;
  if bool_decide (cardId ∈ Lane.cardIds lane)
  then [(Project.id project, Lane.id lane)]
  else [].

(** Invariant I1: a card that is not deleted is listed by exactly one lane,
    the lane [laneId] of the project [projectId]. *)
Definition I1 (state : BoardState) : Prop :=
  ∀ cardId card,
    cards state !! cardId = Some card →
    Card.isDeleted card = false →
    lanesHolding state cardId = [(Card.projectId card, Card.laneId card)].


(** No project is active: [activeProjectId] is [null], or it is the id of no
    project. *)
Definition noActiveProject (state : BoardState) : Prop :=
  activeProjectId state = None
  ∨ ∀ project, project ∈ projects state →
               Some (Project.id project) ≠ activeProjectId state.

(** The lanes of the active project, if there is one, have pairwise distinct
    ids. *)
Definition distinctLaneIds (state : BoardState) : Prop :=
  ∀ activeProject,
    getActiveProject state = Some activeProject →
    NoDup (Lane.id <$> Project.lanes activeProject).



(** What the loop of DELETE_LANE does to one card. *)
Definition movedTo (firstLane : Lane.t) (now : string) (card : Card) : Card :=
  Card.with_updatedAt now (Card.with_laneId (Lane.id firstLane) card).

Module Sample.
Definition world : World :=
  mkWorld (λ k, match k with O => "t1" | _ => "t2" end)
          (λ k, match k with
                | O => "g0" | 1%nat => "g1" | 2%nat => "g2" | _ => "g3"
                end).

Definition card (id projectId laneId : string) : Card :=
  Card.mk id projectId "Write spec" "" task medium None [] None laneId 0
          false "t0" "t0".

Definition newCard (laneId : string) : NewCard.t :=
  NewCard.mk "Write spec" "" task medium None [] None laneId 0.

Definition project (id : string) (lanes : list Lane.t) : Project :=
  Project.mk id "Board" None lanes "t0" "t0".

(** One project with a single lane that holds the card c1. *)
Definition oneLane : BoardState :=
  mkState [project "p1" [Lane.mk "todo" "Todo" 0 ["c1"]]] (Some "p1")
          {[ "c1" := card "c1" "p1" "todo" ]} ∅ false None.

(** One project with two lanes; the first holds c1 and c2. *)
Definition twoLanes : BoardState :=
  mkState [project "p1" [Lane.mk "A" "Todo" 0 ["c1"; "c2"];
                         Lane.mk "B" "Done" 1 ["c3"]]]
          (Some "p1")
          {[ "c1" := card "c1" "p1" "A"; "c2" := card "c2" "p1" "A";
             "c3" := card "c3" "p1" "B" ]}
          ∅ false None.

(** The board of [oneLane] after SET_ACTIVE_PROJECT with an id that names
    no project. *)
Definition strayActive : BoardState :=
  mkState (projects oneLane) (Some "gone") (cards oneLane)
          (cardVersions oneLane) false None.



(** [{ priority: 'urgent' }] *)
Definition makeUrgent : CardUpdates.t :=
  CardUpdates.mk None None None None None (Some urgent) None None None None
                 None None None None.
(** One project with a single, empty lane: a board before its first card. *)
Definition emptyBoard : BoardState :=
  mkState [project "p1" [Lane.mk "todo" "Todo" 0 []]] (Some "p1") ∅ ∅
          false None.

Definition rawProject (id : string) : RawProject :=
  Project.mk id (Some "Board") None [Lane.mk "todo" "Todo" 0 ["c1"]]
             "t0" "t0".

Definition rawCard (id : string) (projectId : option string) : RawCard :=
  Card.mk id projectId "Write spec" "" task medium None [] None "todo" 0
          false "t0" "t0".

Definition rawVersion (cardId : string) (projectId : option string)
    : RawCardVersion :=
  CardVersion.mk "v1" cardId 1
    (CardData.mk projectId "Draft" "" task low None [] None "todo" 0 false
                 "t0" "t0")
    "t0".

(** A multi-project blob: p1 is active, the card c1 belongs to p2, and the
    snapshot recorded for c1 has no [projectId]. *)
Definition foreignCard : Persisted.t :=
  Persisted.mk [rawProject "p1"; rawProject "p2"] (Some "p1")
    {[ "c1" := rawCard "c1" (Some "p2") ]}
    (Some {[ "c1" := [rawVersion "c1" None] ]}) None None.

(** A multi-project blob without projects; its card has no [projectId]. *)
Definition noProjects : Persisted.t :=
  Persisted.mk [] (Some "p1") {[ "c1" := rawCard "c1" None ]} None None None.

(** A multi-project blob whose [activeProjectId] names no project and whose
    card and snapshot both lack [projectId]. *)
Definition staleActive : Persisted.t :=
  Persisted.mk [rawProject "p1"; rawProject "p2"] (Some "gone")
    {[ "c1" := rawCard "c1" None ]}
    (Some {[ "c1" := [rawVersion "c1" None] ]}) None None.
End Sample.

(** ** The facade ([BoardProvider] of [BoardContext.tsx]) and the drag
    handlers of the board view *)

(** [createInitialState]: the clock is read first, then [createDefaultLanes]
    draws three identifiers, then the project draws its own. *)
Definition createInitialState (w : World) : BoardState :=
  let now := clock w 0 in
  let defaultLanes := createDefaultLanes w 0 in
  let defaultProject : Project :=
    Project.mk (generateId w 3) "Stuff to do now, stuff to do later" None
               defaultLanes now now in
  mkState [defaultProject] (Some (Project.id defaultProject)) ∅ ∅ true None.

(** [state.projects.find(project => project.id === state.activeProjectId)],
    the lookup that the facade and the board view use; unlike
    [getActiveProject] it has no test [!state.activeProjectId]. *)
Definition facadeActiveProject (state : BoardState) : option Project :=
  find (λ project,
          bool_decide (Some (Project.id project) = activeProjectId state))
       (projects state).

(** The predicate of the [filter] in [getCardsByLane], applied to
    [state.cards[cardId]]. *)
Definition shownCard (activeProject : Project) (entry : option Card)
    : option Card :=
  match entry with
  | None => None
  | Some card =>
      if negb (Card.isDeleted card)
         && bool_decide (Card.projectId card = Project.id activeProject)
      then Some card
      else None
  end.

Definition getCardsByLane (state : BoardState) (laneId : string) : list Card :=
  match facadeActiveProject state with
  | None => []
  | Some activeProject =>
      match find (λ l, bool_decide (Lane.id l = laneId))
                 (Project.lanes activeProject) with
      | None => []
      | Some lane =>
          omap (shownCard activeProject)
               ((λ cardId, cards state !! cardId) <$> Lane.cardIds lane)
      end
  end.

(** [versions !== undefined && versions.length > 0]; for an inherited
    property [versions.length] is the number of parameters of the function,
    and [undefined] for the prototype object. *)
Definition canUndoCard (state : BoardState) (cardId : string) : bool :=
  match cardVersions state !! cardId with
  | Some versions => bool_decide (0 < length versions)%nat
  | None =>
      match inherited cardId with
      | Some (functionOf n) => bool_decide (0 < n)%nat
      | Some prototypeObject => false
      | None => false
      end
  end.

(** [xs.indexOf(x)]: the first position of [x], or [-1]. *)
Definition indexOf (xs : list string) (x : string) : Z :=
  match list_find (λ y, y = x) xs with
  | Some (i, _) => Z.of_nat i
  | None => -1
  end.

(** What [xs.splice(start, 1)] leaves in [xs], for an integer [start]. *)
Definition splice_remove (xs : list string) (start : Z) : list string :=
  let len := Z.of_nat (length xs) in
  let k := if start <? 0 then Z.max (len + start) 0 else Z.min start len in
  take (Z.to_nat k) xs ++ drop (S (Z.to_nat k)) xs.

(** [activeProject?.lanes.find(l => l.id === id)] *)
Definition findLane (activeProject : option Project) (id : string)
    : option Lane.t :=
  match activeProject with
  | None => None
  | Some project =>
      find (λ l, bool_decide (Lane.id l = id)) (Project.lanes project)
  end.


(** [handleDragEnd]: the action it dispatches through [reorderLanes] or
    [reorderCards], if any. *)
Definition handleDragEnd (state : BoardState) (activeId : string)
    (over : option string) : option BoardAction :=
  match over with
  | None => None
  | Some overId =>
      let activeProject := facadeActiveProject state in
      let activeLane := findLane activeProject activeId in
      let overLane := findLane activeProject overId in
      if bool_decide (is_Some activeLane) && bool_decide (is_Some overLane)
         && bool_decide (activeId ≠ overId)
      then
        let laneIds :=
          match activeProject with
          | Some project => Lane.id <$> Project.lanes project
          | None => []
          end in
        let oldIndex := indexOf laneIds activeId in
        let newIndex := indexOf laneIds overId in
        let newLaneIds :=
          splice_insert (splice_remove laneIds oldIndex) newIndex activeId in
        Some (REORDER_LANES newLaneIds)
      else
        match cards state !! activeId with
        | None => None
        | Some activeCard =>
            match cards state !! overId with
            | None => None
            | Some overCard =>
                if bool_decide (Card.laneId activeCard = Card.laneId overCard)
                   && bool_decide (activeId ≠ overId)
                then
                  match findLane activeProject (Card.laneId activeCard) with
                  | None => None
                  | Some lane =>
                      let oldIndex := indexOf (Lane.cardIds lane) activeId in
                      let newIndex := indexOf (Lane.cardIds lane) overId in
                      let cardIds :=
                        splice_insert
                          (splice_remove (Lane.cardIds lane) oldIndex)
                          newIndex activeId in
                      Some (REORDER_CARDS (Lane.id lane) cardIds)
                  end
                else None
            end
        end
  end.

(** ** Further invariants *)

(** The version numbers of every recorded history increase strictly. *)
Definition historySorted (state : BoardState) : Prop :=
  ∀ id versions,
    cardVersions state !! id = Some versions →
    StronglySorted Z.lt (CardVersion.version <$> versions).

(** An integer that double precision holds exactly together with its
    neighbours ([Number.isSafeInteger]). *)
Definition safeInteger (z : Z) : Prop := - 2 ^ 53 < z < 2 ^ 53.

(** Every recorded version number is a safe integer. *)
Definition safeVersions (state : BoardState) : Prop :=
  ∀ id versions v,
    cardVersions state !! id = Some versions →
    v ∈ versions →
    safeInteger (CardVersion.version v).

(** No two projects share an id. *)
Definition distinctProjectIds (state : BoardState) : Prop :=
  NoDup (Project.id <$> projects state).

(** Invariant I5: [activeProjectId], when not [null], is the id of a
    project. *)
Definition I5 (state : BoardState) : Prop :=
  ∀ a, activeProjectId state = Some a →
       ∃ project, project ∈ projects state ∧ Project.id project = a.

(** The pairs (project id, lane id) of the lanes of one project that list
    [cardId]; [lanesHolding] concatenates them over the projects. *)
Definition heldIn (cardId : string) (project : Project)
    : list (string * string) :=
  lane ← Project.lanes project;
  if bool_decide (cardId ∈ Lane.cardIds lane)
  then [(Project.id project, Lane.id lane)]
  else [].



(** Further sample boards. *)
Module Scenario.
(** The board of [Sample.oneLane] after DELETE_CARD of c1: the card is
    deleted and no lane lists it. *)
Definition deleted : BoardState :=
  mkState [Sample.project "p1" [Lane.mk "todo" "Todo" 0 []]] (Some "p1")
          {[ "c1" := Card.with_isDeleted true (Sample.card "c1" "p1" "todo") ]}
          ∅ false None.

(** Two projects; the second is active and the card c1 belongs to the
    first. *)
Definition twoProjects : BoardState :=
  mkState [Sample.project "p1" [Lane.mk "todo" "Todo" 0 ["c1"]];
           Sample.project "p2" [Lane.mk "later" "Later" 0 ["c2"]]]
          (Some "p2")
          {[ "c1" := Sample.card "c1" "p1" "todo";
             "c2" := Sample.card "c2" "p2" "later" ]}
          {[ "c1" := [createCardVersion Sample.world
                        (Sample.card "c1" "p1" "todo") []] ]}
          false None.

(** Three lanes, the middle one empty. *)
Definition threeLanes : BoardState :=
  mkState [Sample.project "p1" [Lane.mk "A" "Todo" 0 ["c1"; "c2"; "c3"];
                                Lane.mk "B" "Doing" 1 [];
                                Lane.mk "C" "Done" 2 ["c4"]]]
          (Some "p1")
          {[ "c1" := Sample.card "c1" "p1" "A";
             "c2" := Sample.card "c2" "p1" "A";
             "c3" := Sample.card "c3" "p1" "A";
             "c4" := Sample.card "c4" "p1" "C" ]}
          ∅ false None.
(** A blob of the single-project schema: the project is titled by [name],
    has no lanes, and its card has no [projectId]. *)
Definition legacyBlob : Legacy.t :=
  Legacy.mk (LegacyProject.mk "old" (Some "Old board") None None None None)
            (Some {[ "c1" := Sample.rawCard "c1" None ]}) None None None.
(** A snapshot numbered 2^53, the first integer whose successor is no
    double. *)
Definition lastExactVersion : CardVersion :=
  CardVersion.mk "v-last" "c1" (2 ^ 53)
    (CardVersion.data
       (createCardVersion Sample.world (Sample.card "c1" "p1" "todo") []))
    "t0".

(** The board of [Sample.twoLanes] after c1 has been moved to the head of
    lane B: the history of c1 holds the snapshot taken in lane A. *)
Definition afterMove : BoardState :=
  mkState [Sample.project "p1" [Lane.mk "A" "Todo" 0 ["c2"];
                                Lane.mk "B" "Done" 1 ["c1"; "c3"]]]
          (Some "p1")
          {[ "c1" := Sample.card "c1" "p1" "B";
             "c2" := Sample.card "c2" "p1" "A";
             "c3" := Sample.card "c3" "p1" "B" ]}
          {[ "c1" := [createCardVersion Sample.world
                        (Sample.card "c1" "p1" "A") []] ]}
          false None.
End Scenario.

(** * Properties *)

(** ** The active project *)

Lemma getActiveProject_none state :
  noActiveProject state → getActiveProject state = None.
Proof.
  unfold noActiveProject, getActiveProject.
  intros [-> | Hstray]; [done|].
  destruct (activeProjectId state) as [aid|]; [|done].
  case_bool_decide; [done|].
  destruct (find _ _) as [project|] eqn:Hfind; [|done].
  apply find_some in Hfind as [Hin Heq].
  apply bool_decide_eq_true in Heq.
  exfalso. apply (Hstray project); [by apply list_elem_of_In | by rewrite Heq].
Qed.

Lemma mapActiveProject_none state updater :
  getActiveProject state = None → mapActiveProject state updater = None.
Proof. unfold mapActiveProject. by intros ->. Qed.

(** Without an active project the step on an inherited property returns the
    state, unless the history read is a function with parameters. *)
Lemma inheritedCardStep_none state id found :
  getActiveProject state = None →
  (∀ n, found ≠ functionOf (S n)) ∨ is_Some (cardVersions state !! id) →
  inheritedCardStep state id found = Returns state.
Proof.
  unfold inheritedCardStep. intros -> Hplain.
  destruct (cardVersions state !! id) as [versions|]; [done|].
  destruct Hplain as [Hplain|[versions [=]]].
  destruct found as [[|n]|]; [done| |done]. by destruct (Hplain n).
Qed.

(** Whatever the step on an inherited property returns is the state it was
    given. *)
Lemma absent_card_step state id state' :
  match inherited id with
  | None => Returns state
  | Some found => inheritedCardStep state id found
  end = Returns state' →
  state' = state.
Proof.
  unfold inheritedCardStep. intros Hrun.
  repeat case_match; by simplify_eq.
Qed.

Lemma inheritedCardStep_throws state id n :
  cardVersions state !! id = None →
  inheritedCardStep state id (functionOf (S n)) = Throws.
Proof. unfold inheritedCardStep. by intros ->. Qed.

(** C9.  The guard holds for the ids of cards, and fails on a missed case.
    Without an active project UNDO_CARD returns the state it was given for
    every id, and so do UPDATE_CARD, DELETE_CARD and MOVE_CARD for every id
    under which [state.cardVersions[id]] does not read a function with
    parameters, whether or not the card exists and whatever its history
    holds.  For the name of such a function of [Object.prototype] (such as
    [constructor]), with neither a card nor a history stored under it, the
    three raise in [createCardVersion], which they call before they test for
    the active project. *)
Theorem card_mutations_need_active_project w state :
  noActiveProject state →
  (∀ id,
     (∀ n, inherited id ≠ Some (functionOf (S n)))
     ∨ is_Some (cardVersions state !! id) →
     (∀ updates, boardReducer w state (UPDATE_CARD id updates) = Returns state)
     ∧ boardReducer w state (DELETE_CARD id) = Returns state
     ∧ (∀ toLaneId toIndex,
          boardReducer w state (MOVE_CARD id toLaneId toIndex) = Returns state))
  ∧ (∀ cardId, boardReducer w state (UNDO_CARD cardId) = Returns state)
  ∧ (∀ id n,
       inherited id = Some (functionOf (S n)) →
       cards state !! id = None →
       cardVersions state !! id = None →
       (∀ updates, boardReducer w state (UPDATE_CARD id updates) = Throws)
       ∧ boardReducer w state (DELETE_CARD id) = Throws
       ∧ (∀ toLaneId toIndex,
            boardReducer w state (MOVE_CARD id toLaneId toIndex) = Throws)).
Proof.
  intros Hnone%getActiveProject_none.
  pose proof (mapActiveProject_none state) as Hmap.
  split; [|split].
  - intros id Hplain.
    assert (Hstep : ∀ found, inherited id = Some found →
                             inheritedCardStep state id found = Returns state).
    { intros found Hfound. apply inheritedCardStep_none; [done|].
      destruct Hplain as [Hplain|Hown]; [left|by right].
      intros n ->. by apply (Hplain n). }
    repeat split; intros; cbn;
      (destruct (cards state !! id);
       [by rewrite ?Hmap, ?Hnone
       |destruct (inherited id) as [found|]; [by apply Hstep|done]]).
  - intros cardId. cbn.
    destruct (cardVersions state !! cardId) as [versions|]; [|done].
    destruct (last versions); [|done]. by rewrite Hnone.
  - intros id n Hfound Hcard Hversions.
    repeat split; intros; cbn; rewrite Hcard, Hfound;
      by apply inheritedCardStep_throws.
Qed.

Lemma card_mutations_need_active_project_witness :
  noActiveProject Sample.strayActive
  ∧ is_Some (cards Sample.strayActive !! "c1")
  ∧ boardReducer Sample.world Sample.strayActive (DELETE_CARD "c1")
    = Returns Sample.strayActive
  ∧ boardReducer Sample.world Sample.strayActive
      (UPDATE_CARD "constructor" CardUpdates.empty)
    = Throws.
Proof.
  assert (Hstray : noActiveProject Sample.strayActive).
  { right. intros project Hin.
    apply list_elem_of_singleton in Hin as ->. discriminate. }
  destruct (card_mutations_need_active_project Sample.world _ Hstray)
    as (Hplain & _ & Hraises).
  split; [exact Hstray|]. split; [by eexists|]. split.
  - apply (Hplain "c1"). left. intros n. discriminate.
  - apply (Hraises "constructor" 0%nat); reflexivity.
Defined.

(** ** Guarded deletion *)



(** C4.  Deleting the only lane of the active project, or the only project of
    the board, returns a state whose [error] is the fixed message and whose
    projects (with their lanes), active project id, cards, version histories
    and loading flag are those of the state given. *)
Theorem last_item_deletion_rejected w state :
  (∀ activeProject lane,
     getActiveProject state = Some activeProject →
     Project.lanes activeProject = [lane] →
     ∃ state',
       boardReducer w state (DELETE_LANE (Lane.id lane)) = Returns state'
       ∧ error state' = Some "Cannot delete the last lane"
       ∧ projects state' = projects state
       ∧ activeProjectId state' = activeProjectId state
       ∧ cards state' = cards state
       ∧ cardVersions state' = cardVersions state
       ∧ isLoading state' = isLoading state)
  ∧ (∀ project,
       projects state = [project] →
       ∃ state',
         boardReducer w state (DELETE_PROJECT (Project.id project))
         = Returns state'
         ∧ error state' = Some "Cannot delete the last project"
         ∧ projects state' = projects state
         ∧ activeProjectId state' = activeProjectId state
         ∧ cards state' = cards state
         ∧ cardVersions state' = cardVersions state
         ∧ isLoading state' = isLoading state).
Proof.
  split.
  - intros activeProject lane Hactive Hlanes. eexists. split.
    + cbn. by rewrite Hactive, Hlanes.
    + by repeat split.
  - intros project Hprojects. eexists. split.
    + cbn. rewrite Hprojects. cbn.
      rewrite decide_False by (intros Hne; by apply Hne).
      reflexivity.
    + by repeat split.
Qed.

Lemma last_item_deletion_rejected_witness :
  (∃ state',
     boardReducer Sample.world Sample.oneLane (DELETE_LANE "todo")
     = Returns state'
     ∧ error state' = Some "Cannot delete the last lane"
     ∧ projects state' = projects Sample.oneLane
     ∧ cards state' = cards Sample.oneLane)
  ∧ ∃ state',
      boardReducer Sample.world Sample.oneLane (DELETE_PROJECT "p1")
      = Returns state'
      ∧ error state' = Some "Cannot delete the last project"
      ∧ projects state' = projects Sample.oneLane
      ∧ cards state' = cards Sample.oneLane.
Proof.
  destruct (last_item_deletion_rejected Sample.world Sample.oneLane)
    as [Hlane Hproject].
  split.
  - destruct (Hlane (Sample.project "p1" [Lane.mk "todo" "Todo" 0 ["c1"]])
                    (Lane.mk "todo" "Todo" 0 ["c1"]) eq_refl eq_refl)
      as (state' & Hrun & Herror & Hprojects & _ & Hcards & _).
    by exists state'.
  - destruct (Hproject (Sample.project "p1" [Lane.mk "todo" "Todo" 0 ["c1"]])
                       eq_refl)
      as (state' & Hrun & Herror & Hprojects & _ & Hcards & _).
    by exists state'.
Defined.

(** ** Version histories *)

Lemma mapActiveProject_some state activeProject updater :
  getActiveProject state = Some activeProject →
  ∃ updatedProjects, mapActiveProject state updater = Some updatedProjects.
Proof. unfold mapActiveProject. intros ->. eauto. Qed.






(** ** Undo *)

Lemma find_project_fmap (g : Project → Project) aid (ps : list Project) :
  (∀ p, Project.id (g p) = Project.id p) →
  find (λ project, bool_decide (Project.id project = aid)) (g <$> ps)
  = g <$> find (λ project, bool_decide (Project.id project = aid)) ps.
Proof.
  intros Hid. induction ps as [|p ps IH]; [done|].
  cbn. rewrite Hid. by case_bool_decide.
Qed.

(** The project that [mapActiveProject] has rewritten is the active project
    of the resulting state, provided the rewriting kept its id. *)
Lemma getActiveProject_mapped state activeProject updater ps cs vs loading err :
  getActiveProject state = Some activeProject →
  Project.id (updater activeProject) = Project.id activeProject →
  mapActiveProject state updater = Some ps →
  getActiveProject (mkState ps (activeProjectId state) cs vs loading err)
  = Some (updater activeProject).
Proof.
  unfold mapActiveProject. intros Hactive Hid. rewrite Hactive. intros [= <-].
  unfold getActiveProject in *. cbn.
  destruct (activeProjectId state) as [aid|]; [|done].
  case_bool_decide; [done|].
  rewrite find_project_fmap.
  - rewrite Hactive. cbn. by rewrite bool_decide_eq_true_2.
  - intros p. case_bool_decide; congruence.
Qed.




(** ** The cascade of DELETE_LANE *)

(** With a first remaining lane the loop never raises; it rewrites exactly the
    cards that the deleted lane lists and that exist. *)
Lemma reassignCards_lookup firstLane now cardIds :
  ∀ updatedCards : gmap string Card,
  ∃ result,
    reassignCards (Some firstLane) now cardIds updatedCards = Some result
    ∧ ∀ k, result !! k
           = if bool_decide (k ∈ cardIds)
             then movedTo firstLane now <$> updatedCards !! k
             else updatedCards !! k.
Proof.
  induction cardIds as [|cardId rest IH]; intros updatedCards.
  - exists updatedCards. split; [done|]. intros k.
    rewrite bool_decide_eq_false_2; [done|]. apply not_elem_of_nil.
  - cbn [reassignCards].
    destruct (updatedCards !! cardId) as [card|] eqn:Hcard.
    + destruct (IH (<[cardId := Card.with_updatedAt now
                                  (Card.with_laneId (Lane.id firstLane) card)]>
                      updatedCards)) as (result & -> & Hresult).
      exists result. split; [done|]. intros k. rewrite Hresult.
      destruct (decide (k = cardId)) as [->|Hne].
      * rewrite lookup_insert_eq, Hcard.
        rewrite (bool_decide_eq_true_2 (cardId ∈ cardId :: rest))
          by apply list_elem_of_here.
        by case_bool_decide.
      * rewrite lookup_insert_ne by done.
        assert (Hext : bool_decide (k ∈ rest)
                       = bool_decide (k ∈ cardId :: rest)).
        { apply bool_decide_ext. rewrite elem_of_cons. tauto. }
        by rewrite Hext.
    + destruct (IH updatedCards) as (result & -> & Hresult).
      exists result. split; [done|]. intros k. rewrite Hresult.
      destruct (decide (k = cardId)) as [->|Hne].
      * rewrite Hcard.
        rewrite (bool_decide_eq_true_2 (cardId ∈ cardId :: rest))
          by apply list_elem_of_here.
        by case_bool_decide.
      * assert (Hext : bool_decide (k ∈ rest)
                       = bool_decide (k ∈ cardId :: rest)).
        { apply bool_decide_ext. rewrite elem_of_cons. tauto. }
        by rewrite Hext.
Qed.

Lemma imap_lane_orders (f : nat → Lane.t → Lane.t) (lanes : list Lane.t) :
  (∀ index lane, Lane.order (f index lane) = Z.of_nat index) →
  Lane.order <$> imap f lanes = Z.of_nat <$> seq 0 (length lanes).
Proof.
  intros Horder. rewrite fmap_imap, <- imap_seq_0.
  apply imap_ext. intros index lane _. apply Horder.
Qed.

Lemma imap_lane_ids (f : nat → Lane.t → Lane.t) (lanes : list Lane.t) :
  (∀ index lane, Lane.id (f index lane) = Lane.id lane) →
  Lane.id <$> imap f lanes = Lane.id <$> lanes.
Proof.
  intros Hid. rewrite fmap_imap, <- imap_const.
  apply imap_ext. intros index lane _. apply Hid.
Qed.

(** C6.  DELETE_LANE of a lane [laneToDelete] of the active project, which has
    more than one lane and whose remaining lanes are [firstLane :: others]:
    every existing card listed by [laneToDelete] now has [laneId] equal to
    the id of [firstLane] (and no other card is touched); the lanes of the
    project are the remaining ones in their former order, with [order]
    renumbered 0, 1, ..., n-1; and the first of them lists its former cards
    followed by those of [laneToDelete], in their order. *)
Theorem delete_lane_cascade w state activeProject id laneToDelete
    firstLane others :
  getActiveProject state = Some activeProject →
  (1 < length (Project.lanes activeProject))%nat →
  find (λ l, bool_decide (Lane.id l = id)) (Project.lanes activeProject)
  = Some laneToDelete →
  filter (λ l, Lane.id l ≠ id) (Project.lanes activeProject)
  = firstLane :: others →
  ∃ state' activeProject' firstLane' others',
    boardReducer w state (DELETE_LANE id) = Returns state'
    ∧ getActiveProject state' = Some activeProject'
    ∧ (∀ cardId card,
         cardId ∈ Lane.cardIds laneToDelete →
         cards state !! cardId = Some card →
         ∃ card', cards state' !! cardId = Some card'
                  ∧ Card.laneId card' = Lane.id firstLane
                  ∧ card' = movedTo firstLane (clock w 0) card)
    ∧ (∀ cardId,
         cardId ∉ Lane.cardIds laneToDelete →
         cards state' !! cardId = cards state !! cardId)
    ∧ Project.lanes activeProject' = firstLane' :: others'
    ∧ Lane.cardIds firstLane'
      = Lane.cardIds firstLane ++ Lane.cardIds laneToDelete
    ∧ Lane.id <$> firstLane' :: others' = Lane.id <$> firstLane :: others
    ∧ Lane.title <$> firstLane' :: others' = Lane.title <$> firstLane :: others
    ∧ Lane.order <$> firstLane' :: others'
      = Z.of_nat <$> seq 0 (length (firstLane :: others)).
Proof.
  intros Hactive Hmany Hfind Hremaining.
  set (renumber := λ (index : nat) (lane : Lane.t),
         if bool_decide (Lane.id lane = Lane.id firstLane)
         then Lane.mk (Lane.id lane) (Lane.title lane) (Z.of_nat index)
                      (Lane.cardIds lane ++ Lane.cardIds laneToDelete)
         else Lane.with_order (Z.of_nat index) lane).
  destruct (reassignCards_lookup firstLane (clock w 0)
              (Lane.cardIds laneToDelete) (cards state))
    as (updatedCards & Hloop & Hcards).
  destruct (mapActiveProject_some state activeProject
              (Project.with_lanes (imap renumber (firstLane :: others))
                                  (clock w 0)) Hactive) as [ps Hps].
  assert (Hrun :
    boardReducer w state (DELETE_LANE id)
    = Returns (mkState ps (activeProjectId state) updatedCards
                 (cardVersions state) (isLoading state) (error state))).
  { unfold boardReducer. rewrite Hactive.
    apply Nat.leb_gt in Hmany. rewrite Hmany, Hfind, Hremaining.
    cbn [head]. rewrite Hloop. fold renumber. by rewrite Hps. }
  exists (mkState ps (activeProjectId state) updatedCards
            (cardVersions state) (isLoading state) (error state)),
         (Project.with_lanes (imap renumber (firstLane :: others)) (clock w 0)
                             activeProject),
         (renumber 0%nat firstLane),
         (imap (renumber ∘ S) others).
  split; [exact Hrun|].
  split; [by apply getActiveProject_mapped|].
  split.
  { intros cardId card Hin Hcard. eexists. split; [|split; [|reflexivity]].
    - cbn [cards]. rewrite Hcards, Hcard.
      by rewrite bool_decide_eq_true_2.
    - reflexivity. }
  split.
  { intros cardId Hnotin. cbn [cards]. rewrite Hcards.
    by rewrite bool_decide_eq_false_2. }
  split; [reflexivity|].
  split.
  { unfold renumber. by rewrite bool_decide_eq_true_2. }
  change (renumber 0%nat firstLane :: imap (renumber ∘ S) others)
    with (imap renumber (firstLane :: others)).
  split; [|split].
  - apply imap_lane_ids. intros index lane. unfold renumber.
    by case_bool_decide.
  - rewrite fmap_imap, <- imap_const. apply imap_ext.
    intros index lane _. unfold renumber. cbn. by case_bool_decide.
  - apply imap_lane_orders. intros index lane. unfold renumber.
    by case_bool_decide.
Qed.

Lemma delete_lane_cascade_witness :
  ∃ state' activeProject',
    boardReducer Sample.world Sample.twoLanes (DELETE_LANE "A") = Returns state'
    ∧ getActiveProject state' = Some activeProject'
    ∧ Card.laneId <$> cards state' !! "c1" = Some "B"
    ∧ Card.laneId <$> cards state' !! "c2" = Some "B"
    ∧ Lane.cardIds <$> Project.lanes activeProject' = [["c3"; "c1"; "c2"]]
    ∧ Lane.order <$> Project.lanes activeProject' = [0].
Proof.
  destruct (delete_lane_cascade Sample.world Sample.twoLanes
              (Sample.project "p1" [Lane.mk "A" "Todo" 0 ["c1"; "c2"];
                                    Lane.mk "B" "Done" 1 ["c3"]])
              "A" (Lane.mk "A" "Todo" 0 ["c1"; "c2"])
              (Lane.mk "B" "Done" 1 ["c3"]) []
              eq_refl ltac:(cbn; lia) eq_refl eq_refl)
    as (state' & activeProject' & firstLane' & others' & Hrun & Hactive
        & Hmoved & _ & Hlanes & Hids & Hsame & _ & Horders).
  exists state', activeProject'.
  split; [exact Hrun|]. split; [exact Hactive|].
  destruct (Hmoved "c1" (Sample.card "c1" "p1" "A"))
    as (c1' & Hc1 & Hl1 & _); [apply list_elem_of_here|reflexivity|].
  destruct (Hmoved "c2" (Sample.card "c2" "p1" "A"))
    as (c2' & Hc2 & Hl2 & _);
    [apply list_elem_of_further, list_elem_of_here|reflexivity|].
  rewrite Hc1, Hc2, Hlanes. cbn [fmap option_fmap option_map].
  rewrite Hl1, Hl2.
  destruct others' as [|other others']; [|discriminate Hsame].
  cbn in Horders |- *. rewrite Hids.
  injection Horders as ->. done.
Defined.

(** ** Totality and no-ops *)

Lemma remaining_lanes_cons (lanes : list Lane.t) id :
  NoDup (Lane.id <$> lanes) →
  (1 < length lanes)%nat →
  ∃ firstLane others, filter (λ l, Lane.id l ≠ id) lanes = firstLane :: others.
Proof.
  destruct lanes as [|a [|b rest]]; intros Hnodup Hlen;
    [cbn in Hlen; lia..|].
  rewrite !fmap_cons in Hnodup.
  apply NoDup_cons in Hnodup as [Hab _].
  destruct (decide (Lane.id a = id)) as [Ha|Ha].
  - rewrite filter_cons_False by (intros Hne; by apply Hne).
    rewrite filter_cons_True; [by eauto|].
    intros Hb. apply Hab. rewrite Ha, <- Hb. apply list_elem_of_here.
  - rewrite filter_cons_True by done. eauto.
Qed.





(** ** Normalisation *)

Lemma normalize_persistedProject (project : Project) :
  Project.mk (Project.id (persistedProject project))
    (default "Untitled project" (Project.title (persistedProject project)))
    (Project.thumbnailUrl (persistedProject project))
    (Project.lanes (persistedProject project))
    (Project.createdAt (persistedProject project))
    (Project.updatedAt (persistedProject project))
  = project.
Proof. by destruct project. Qed.

Lemma backfill_persistedCard fallback (card : Card) :
  backfillCard fallback (persistedCard card) = card.
Proof. by destruct card. Qed.

Lemma backfill_persistedVersion projectId (version : CardVersion) :
  backfillVersion projectId (persistedVersion version) = version.
Proof. destruct version as [? ? ? [] ?]. reflexivity. Qed.

Lemma backfillVersions_persisted cards fallback
    (versions : gmap string (list CardVersion)) :
  backfillVersions cards fallback
    (Some (fmap (M := list) persistedVersion <$> versions))
  = versions.
Proof.
  unfold backfillVersions. apply map_eq. intros cardId.
  rewrite map_lookup_imap. cbn [from_option id]. rewrite lookup_fmap.
  destruct (versions !! cardId) as [vs|]; [|done]. cbn. f_equal.
  rewrite <- list_fmap_compose.
  rewrite <- (list_fmap_id vs) at 2.
  apply list_fmap_ext. intros i version _.
  apply backfill_persistedVersion.
Qed.

(** A board state whose [activeProjectId] survives the resolution of the
    first branch is a fixed point of the normaliser. *)
Lemma normalize_persisted_fixed w (s : BoardState) :
  (let candidateProjectId :=
     nullish (activeProjectId s) (Project.id <$> head (projects s)) in
   if existsb (λ project,
                 bool_decide (Some (Project.id project) = candidateProjectId))
              (projects s)
   then candidateProjectId
   else Project.id <$> head (projects s)) = activeProjectId s →
  normalizeState w (persisted s) = s.
Proof.
  intros Hactive. destruct s as [ps aid cs vs loading err].
  cbn in Hactive.
  cbv [normalizeState persisted Persisted.projects Persisted.activeProjectId
       Persisted.cards Persisted.cardVersions Persisted.isLoading
       Persisted.error projects activeProjectId cards cardVersions isLoading
       error].
  assert (Hps : (λ project : RawProject,
                   Project.mk (Project.id project)
                     (default "Untitled project" (Project.title project))
                     (Project.thumbnailUrl project) (Project.lanes project)
                     (Project.createdAt project) (Project.updatedAt project))
                  <$> (persistedProject <$> ps) = ps).
  { rewrite <- list_fmap_compose. rewrite <- (list_fmap_id ps) at 2.
    apply list_fmap_ext. intros i project _.
    apply normalize_persistedProject. }
  rewrite Hps, Hactive. f_equal.
  - rewrite <- map_fmap_compose. rewrite <- (map_fmap_id cs) at 2.
    apply map_fmap_ext. intros cardId card _.
    apply backfill_persistedCard.
  - apply backfillVersions_persisted.
Qed.

(** C7.  Normalising a normalised state again, in whatever world, gives it
    back: for a legacy input and for a multi-project input alike. *)
Theorem normalizeState_idempotent w w' (x : RawState) :
  normalizeState w' (persisted (normalizeState w x)) = normalizeState w x.
Proof.
  apply normalize_persisted_fixed.
  destruct x as [raw|raw]; cbn.
  - set (ps := _ <$> Persisted.projects raw).
    set (headId := Project.id <$> head ps).
    set (candidate := nullish (Persisted.activeProjectId raw) headId).
    destruct (existsb (λ project : Project,
                         bool_decide (Some (Project.id project) = candidate))
                      ps) eqn:Hsome.
    + destruct candidate as [c|] eqn:Hc.
      * cbn. by rewrite Hsome.
      * apply existsb_exists in Hsome as (q & _ & Hq).
        by apply bool_decide_eq_true in Hq.
    + destruct ps as [|p ps']; [done|]. subst headId. cbn.
      by rewrite bool_decide_eq_true_2.
  - by rewrite bool_decide_eq_true_2.
Qed.

(** C8, as the specification states it, fails on the snapshots and on boards
    without projects.  A snapshot without [projectId] receives the
    [projectId] of the card it belongs to, which need not be the active
    project; and when no project exists, so that the resolved id is [null],
    a card without [projectId] receives the empty string. *)
Lemma snapshot_backfill_not_active_project :
  (activeProjectId (normalizeState Sample.world (Current Sample.foreignCard))
   = Some "p1"
   ∧ fmap (M := list) (λ version : CardVersion,
                         CardData.projectId (CardVersion.data version))
       <$> cardVersions (normalizeState Sample.world
                           (Current Sample.foreignCard)) !! "c1"
     = Some ["p2"])
  ∧ (activeProjectId (normalizeState Sample.world (Current Sample.noProjects))
     = None
     ∧ Card.projectId
         <$> cards (normalizeState Sample.world (Current Sample.noProjects))
             !! "c1"
       = Some "").
Proof. repeat split; vm_compute; reflexivity. Qed.

Lemma existsb_project_named (raws : list RawProject) (f : RawProject → Project)
    (a : string) :
  (∀ project, Project.id (f project) = Project.id project) →
  existsb (λ project : Project, bool_decide (Some (Project.id project) = Some a))
          (f <$> raws) = true
  ↔ ∃ project, project ∈ raws ∧ Project.id project = a.
Proof.
  intros Hid. rewrite existsb_exists. split.
  - intros (q & Hin & Hq). apply bool_decide_eq_true in Hq as [= Hname].
    apply list_elem_of_In, list_elem_of_fmap in Hin as (project & -> & Hin).
    exists project. by rewrite <- Hid.
  - intros (project & Hin & Heq). exists (f project). split.
    + apply list_elem_of_In, list_elem_of_fmap. eauto.
    + apply bool_decide_eq_true. by rewrite Hid, Heq.
Qed.

(** C8, amended.  For a multi-project input, [activeProjectId] becomes the
    raw value when that names a project, and otherwise the id of the first
    project, [null] when there is none.  A card keeps its [projectId]; a
    card without one receives the resolved id, or the empty string when the
    resolved id is [null].  A snapshot keeps its [projectId]; a snapshot
    without one receives the (normalised) [projectId] of the card under
    whose id it is recorded, and only when no such card exists the resolved
    id, or the empty string.  Nothing else of a card or a snapshot changes. *)
Theorem normalizeState_current w (raw : Persisted.t) :
  let state := normalizeState w (Current raw) in
  let resolved := default "" (activeProjectId state) in
  (∀ a, Persisted.activeProjectId raw = Some a →
        (∃ project, project ∈ Persisted.projects raw ∧ Project.id project = a) →
        activeProjectId state = Some a)
  ∧ ((∀ a, Persisted.activeProjectId raw = Some a →
           ¬ ∃ project, project ∈ Persisted.projects raw
                        ∧ Project.id project = a) →
     activeProjectId state = Project.id <$> head (Persisted.projects raw))
  ∧ (∀ id card,
       Persisted.cards raw !! id = Some card →
       ∃ card',
         cards state !! id = Some card'
         ∧ card' = Card.with_projectId (Card.projectId card') card
         ∧ Card.projectId card'
           = match Card.projectId card with
             | Some own => own
             | None => resolved
             end)
  ∧ (∀ cardId versions,
       default ∅ (Persisted.cardVersions raw) !! cardId = Some versions →
       ∃ versions',
         cardVersions state !! cardId = Some versions'
         ∧ Forall2
             (λ (version : RawCardVersion) (version' : CardVersion),
                version'
                = CardVersion.with_data
                    (CardData.with_projectId
                       (CardData.projectId (CardVersion.data version'))
                       (CardVersion.data version))
                    version
                ∧ CardData.projectId (CardVersion.data version')
                  = match CardData.projectId (CardVersion.data version) with
                    | Some own => own
                    | None =>
                        match cards state !! cardId with
                        | Some card' => Card.projectId card'
                        | None => resolved
                        end
                    end)
             versions versions').
Proof.
  cbv zeta. unfold normalizeState.
  set (normalise := λ project : RawProject,
         Project.mk (Project.id project)
           (default "Untitled project" (Project.title project))
           (Project.thumbnailUrl project) (Project.lanes project)
           (Project.createdAt project) (Project.updatedAt project)).
  assert (Hid : ∀ project, Project.id (normalise project) = Project.id project)
    by done.
  assert (Hhead : Project.id <$> head (normalise <$> Persisted.projects raw)
                  = Project.id <$> head (Persisted.projects raw)).
  { by destruct (Persisted.projects raw). }
  cbn [activeProjectId cards cardVersions].
  split; [|split; [|split]].
  - intros a Ha Hnamed. rewrite Ha. cbn [nullish].
    apply (existsb_project_named _ normalise a Hid) in Hnamed.
    by rewrite Hnamed.
  - intros Hstray. rewrite Hhead.
    destruct (Persisted.activeProjectId raw) as [a|]; cbn [nullish].
    + destruct (existsb _ _) eqn:Hsome; [|done].
      apply (existsb_project_named _ normalise a Hid) in Hsome.
      by destruct (Hstray a eq_refl).
    + by destruct (existsb _ _).
  - intros id card Hcard. rewrite lookup_fmap, Hcard. cbn.
    eexists. split; [reflexivity|]. split; [reflexivity|].
    cbn. by destruct (Card.projectId card).
  - intros cardId versions Hversions. unfold backfillVersions.
    rewrite map_lookup_imap, Hversions. cbn [mbind option_bind].
    eexists. split; [reflexivity|].
    apply Forall2_fmap_r, Forall_Forall2_diag, Forall_forall.
    intros version _. split; [reflexivity|].
    unfold backfillVersion.
    cbn [CardVersion.data CardVersion.with_data CardData.projectId
         CardData.with_projectId].
    destruct (CardData.projectId (CardVersion.data version)); [done|].
    cbn [from_option id].
    by destruct (@lookup string Card (gmap string Card) _ cardId _).
Qed.

Lemma normalizeState_current_witness :
  activeProjectId (normalizeState Sample.world (Current Sample.staleActive))
  = Some "p1"
  ∧ ∃ card',
      cards (normalizeState Sample.world (Current Sample.staleActive)) !! "c1"
      = Some card'
      ∧ Card.projectId card' = "p1".
Proof.
  destruct (normalizeState_current Sample.world Sample.staleActive)
    as (_ & Hfirst & Hcards & _).
  split.
  - refine (Hfirst _). intros a [= <-] (project & Hin & Hid).
    apply elem_of_cons in Hin as [->|Hin]; [discriminate Hid|].
    apply list_elem_of_singleton in Hin as ->. discriminate Hid.
  - destruct (Hcards "c1" (Sample.rawCard "c1" None) eq_refl)
      as (card' & Hlookup & _ & Hpid).
    exists card'. split; [exact Hlookup|exact Hpid].
Defined.

(** ** Invariant I1 *)

Lemma I1_emptyBoard : I1 Sample.emptyBoard.
Proof.
  intros cardId card Hcard. unfold Sample.emptyBoard in Hcard.
  cbn [cards] in Hcard. by rewrite lookup_empty in Hcard.
Qed.

(** C1 fails on the code.  From a board that satisfies I1, the three valid
    actions ADD_CARD, DELETE_CARD of the new card and UNDO_CARD of it lead to
    a state in which the card is not deleted and yet no lane lists it:
    UNDO_CARD brings [isDeleted] back to [false] but edits [cardIds] only
    when [laneId] has changed, whereas RESTORE_CARD appends the id again. *)
Theorem undo_of_delete_breaks_I1 :
  I1 Sample.emptyBoard
  ∧ ∃ afterAdd afterUndo card,
      boardReducer Sample.world Sample.emptyBoard
                   (ADD_CARD (Sample.newCard "todo")) = Returns afterAdd
      ∧ I1 afterAdd
      ∧ runActions afterAdd [(Sample.world, DELETE_CARD "g0");
                             (Sample.world, UNDO_CARD "g0")]
        = Returns afterUndo
      ∧ cards afterUndo !! "g0" = Some card
      ∧ Card.isDeleted card = false
      ∧ lanesHolding afterUndo "g0" = []
      ∧ ¬ I1 afterUndo.
Proof.
  split; [exact I1_emptyBoard|].
  do 3 eexists. split; [reflexivity|].
  split.
  { intros cardId card Hcard _. cbn [cards] in Hcard.
    apply lookup_insert_Some in Hcard as [[<- <-]|[_ Hcard]].
    - reflexivity.
    - unfold Sample.emptyBoard in Hcard. cbn [cards] in Hcard.
      by rewrite lookup_empty in Hcard. }
  split; [reflexivity|].
  split; [reflexivity|].
  split; [reflexivity|].
  split; [reflexivity|].
  intros Hinv.
  specialize (Hinv "g0" _ eq_refl eq_refl). discriminate Hinv.
Qed.

(** * Further properties of the reducer *)

(** ** Version numbers *)

Lemma foldr_max_bound (x : Z) (xs : list Z) :
  x ≤ foldr Z.max x xs ∧ ∀ y, y ∈ xs → y ≤ foldr Z.max x xs.
Proof.
  induction xs as [|z xs [IHx IHxs]]; cbn.
  - split; [lia|]. intros y Hy. by apply elem_of_nil in Hy.
  - split; [lia|]. intros y [->|Hy]%elem_of_cons; [lia|].
    specialize (IHxs y Hy). lia.
Qed.

Lemma foldr_max_attained (x : Z) (xs : list Z) :
  foldr Z.max x xs ∈ x :: xs.
Proof.
  induction xs as [|z xs IH]; cbn; [apply list_elem_of_here|].
  destruct (Z.max_spec z (foldr Z.max x xs)) as [[_ ->]|[_ ->]].
  - apply elem_of_cons in IH as [->|IH]; [apply list_elem_of_here|].
    by do 2 apply list_elem_of_further.
  - apply list_elem_of_further, list_elem_of_here.
Qed.

(** Up to 2^53 the sum is exact; there it stops growing. *)
Lemma plusOne_exact x : - 2 ^ 53 ≤ x < 2 ^ 53 → plusOne x = x + 1.
Proof.
  change (2 ^ 53) with 9007199254740992. intros Hx.
  unfold plusOne, roundToDouble.
  change (2 ^ 53) with 9007199254740992.
  destruct (Z.ltb_spec (Z.abs (x + 1)) 9007199254740992) as [_|Hlimit];
    [done|].
  assert (x = 9007199254740991) as -> by lia. reflexivity.
Qed.

Lemma plusOne_limit : plusOne (2 ^ 53) = 2 ^ 53.
Proof. reflexivity. Qed.

Lemma nextVersion_max (v0 : CardVersion) (vs : list CardVersion) :
  nextVersion (v0 :: vs)
  = plusOne (foldr Z.max (CardVersion.version v0) (CardVersion.version <$> vs)).
Proof. reflexivity. Qed.

Lemma max_version_recorded (v0 : CardVersion) (vs : list CardVersion) :
  ∃ v, v ∈ v0 :: vs
       ∧ foldr Z.max (CardVersion.version v0) (CardVersion.version <$> vs)
         = CardVersion.version v.
Proof.
  pose proof (foldr_max_attained (CardVersion.version v0)
                (CardVersion.version <$> vs)) as Hmax.
  change (CardVersion.version v0 :: (CardVersion.version <$> vs))
    with (CardVersion.version <$> v0 :: vs) in Hmax.
  apply list_elem_of_fmap in Hmax as (v & Hv & Hin). eauto.
Qed.

Lemma max_version_bound (v0 : CardVersion) (vs : list CardVersion) v :
  v ∈ v0 :: vs →
  CardVersion.version v
  ≤ foldr Z.max (CardVersion.version v0) (CardVersion.version <$> vs).
Proof.
  destruct (foldr_max_bound (CardVersion.version v0) (CardVersion.version <$> vs))
    as [Hhead Htail].
  intros [->|Hin]%elem_of_cons; [done|].
  apply Htail, list_elem_of_fmap. eauto.
Qed.

Lemma nextVersion_above (existingVersions : list CardVersion) v :
  (∀ v, v ∈ existingVersions → safeInteger (CardVersion.version v)) →
  v ∈ existingVersions → CardVersion.version v < nextVersion existingVersions.
Proof.
  destruct existingVersions as [|v0 vs]; [by intros _ ?%elem_of_nil|].
  intros Hsafe Hin. rewrite nextVersion_max.
  destruct (max_version_recorded v0 vs) as (vmax & Hvmax & Hmax).
  pose proof (max_version_bound v0 vs v Hin) as Hbound.
  pose proof (Hsafe vmax Hvmax) as [Hlow Hhigh].
  rewrite plusOne_exact; lia.
Qed.

(** The snapshot that [createCardVersion] builds is numbered 1 when the
    history is empty.  When every recorded number is a safe integer, it is
    numbered one above the largest number recorded, wherever in the history
    that number stands, and its number exceeds every recorded one.  The sum
    is a double: once the largest number recorded is 2^53, the new snapshot
    is numbered 2^53 again. *)
Theorem createCardVersion_numbering w card (existingVersions : list CardVersion) :
  (existingVersions = [] →
   CardVersion.version (createCardVersion w card existingVersions) = 1)
  ∧ ((∀ v, v ∈ existingVersions → safeInteger (CardVersion.version v)) →
     (existingVersions ≠ [] →
      ∃ v, v ∈ existingVersions
           ∧ CardVersion.version (createCardVersion w card existingVersions)
             = CardVersion.version v + 1)
     ∧ (∀ v, v ∈ existingVersions →
             CardVersion.version v
             < CardVersion.version (createCardVersion w card existingVersions)))
  ∧ ((∀ v, v ∈ existingVersions → CardVersion.version v ≤ 2 ^ 53) →
     (∃ v, v ∈ existingVersions ∧ CardVersion.version v = 2 ^ 53) →
     CardVersion.version (createCardVersion w card existingVersions) = 2 ^ 53).
Proof.
  split; [by intros ->|]. split.
  - intros Hsafe. split.
    + destruct existingVersions as [|v0 vs]; [done|]. intros _.
      cbn [createCardVersion CardVersion.version]. rewrite nextVersion_max.
      destruct (max_version_recorded v0 vs) as (vmax & Hvmax & ->).
      exists vmax. split; [done|].
      pose proof (Hsafe vmax Hvmax) as [Hlow Hhigh].
      apply plusOne_exact. lia.
    + intros v Hin. by apply nextVersion_above.
  - intros Hbound (vtop & Hin & Htop).
    destruct existingVersions as [|v0 vs]; [by apply elem_of_nil in Hin|].
    cbn [createCardVersion CardVersion.version]. rewrite nextVersion_max.
    destruct (max_version_recorded v0 vs) as (vmax & Hvmax & Hmax).
    pose proof (max_version_bound v0 vs vtop Hin) as Hreached.
    pose proof (Hbound vmax Hvmax) as Hcap.
    replace (foldr Z.max (CardVersion.version v0) (CardVersion.version <$> vs))
      with (2 ^ 53) by lia.
    apply plusOne_limit.
Qed.

Lemma createCardVersion_numbering_witness :
  CardVersion.version
    (createCardVersion Sample.world (Sample.card "c1" "p1" "todo")
       [createCardVersion Sample.world (Sample.card "c1" "p1" "todo") []])
  = 2
  ∧ CardVersion.version
      (createCardVersion Sample.world (Sample.card "c1" "p1" "todo")
         [Scenario.lastExactVersion])
    = 2 ^ 53.
Proof.
  split.
  - destruct (createCardVersion_numbering Sample.world
                (Sample.card "c1" "p1" "todo")
                [createCardVersion Sample.world (Sample.card "c1" "p1" "todo")
                   []])
      as (_ & Hnext & _).
    destruct Hnext as [Hnext _].
    + intros v Hin. apply list_elem_of_singleton in Hin as ->.
      split; reflexivity.
    + destruct Hnext as (v & Hin & ->); [discriminate|].
      apply list_elem_of_singleton in Hin as ->. reflexivity.
  - destruct (createCardVersion_numbering Sample.world
                (Sample.card "c1" "p1" "todo") [Scenario.lastExactVersion])
      as (_ & _ & Hlimit).
    apply Hlimit.
    + intros v Hin. apply list_elem_of_singleton in Hin as ->. reflexivity.
    + exists Scenario.lastExactVersion.
      split; [apply list_elem_of_here|reflexivity].
Defined.

Lemma sorted_push w card (existingVersions : list CardVersion) :
  (∀ v, v ∈ existingVersions → safeInteger (CardVersion.version v)) →
  StronglySorted Z.lt (CardVersion.version <$> existingVersions) →
  StronglySorted Z.lt
    (CardVersion.version
       <$> existingVersions ++ [createCardVersion w card existingVersions]).
Proof.
  intros Hsafe Hsorted. rewrite fmap_app. apply StronglySorted_app_2; [|done|].
  - intros x1 x2 Hx1 Hx2. apply list_elem_of_singleton in Hx2 as ->.
    apply list_elem_of_fmap in Hx1 as (v & -> & Hin).
    by apply nextVersion_above.
  - repeat constructor.
Qed.

Lemma sorted_take (versions : list CardVersion) n :
  StronglySorted Z.lt (CardVersion.version <$> versions) →
  StronglySorted Z.lt (CardVersion.version <$> take n versions).
Proof.
  intros Hsorted. rewrite <- (take_drop n versions), fmap_app in Hsorted.
  by apply StronglySorted_app_1_l in Hsorted.
Qed.

Lemma historySorted_insert state ps aid cs loading err id versions :
  historySorted state →
  StronglySorted Z.lt (CardVersion.version <$> versions) →
  historySorted (mkState ps aid cs (<[id := versions]> (cardVersions state))
                         loading err).
Proof.
  intros Hinv Hsorted id' versions'. cbn.
  intros [[_ <-]|[_ Hother]]%lookup_insert_Some; [done|]. by eapply Hinv.
Qed.

Lemma historySorted_default state id :
  historySorted state →
  StronglySorted Z.lt
    (CardVersion.version <$> default [] (cardVersions state !! id)).
Proof.
  intros Hinv. destruct (cardVersions state !! id) as [versions|] eqn:Hvs.
  - by eapply Hinv.
  - constructor.
Qed.

Lemma safeVersions_default state id v :
  safeVersions state →
  v ∈ default [] (cardVersions state !! id) →
  safeInteger (CardVersion.version v).
Proof.
  intros Hsafe. destruct (cardVersions state !! id) as [versions|] eqn:Hvs.
  - by apply (Hsafe id versions).
  - by intros ?%elem_of_nil.
Qed.

(** One step of the reducer keeps the version numbers of every history
    strictly increasing, on a board whose recorded numbers are safe integers
    (LOAD_STATE provided the state it loads has them increasing). *)
Theorem history_stays_sorted w state action state' :
  historySorted state →
  safeVersions state →
  match action with
  | LOAD_STATE payload => historySorted payload
  | _ => True
  end →
  boardReducer w state action = Returns state' →
  historySorted state'.
Proof.
  intros Hinv Hsafe Hload Hrun.
  pose proof (historySorted_default state) as Hdefault.
  pose proof (λ id v, safeVersions_default state id v Hsafe) as Hsafedefault.
  destruct action; cbn -[reassignCards] in Hrun;
    unfold inheritedCardStep in Hrun;
    repeat case_match; simplify_eq; try done;
    try (apply historySorted_insert; [done|]);
    try (apply sorted_push; [by apply Hsafedefault|by apply Hdefault]).
  1-4: apply sorted_take; by eapply Hinv.
  all: intros id' versions' Hlookup; cbn in Hlookup;
    apply map_lookup_filter_Some in Hlookup as [Hlookup _]; by eapply Hinv.
Qed.

Lemma history_stays_sorted_witness :
  ∃ state',
    boardReducer Sample.world Scenario.twoProjects (DELETE_CARD "c1")
    = Returns state'
    ∧ historySorted state'.
Proof.
  eexists. split; [reflexivity|].
  eapply (history_stays_sorted Sample.world Scenario.twoProjects
            (DELETE_CARD "c1")); [| |exact I|reflexivity].
  - intros id versions Hlookup. unfold Scenario.twoProjects in Hlookup.
    cbn [cardVersions] in Hlookup.
    apply lookup_singleton_Some in Hlookup as [_ <-]. repeat constructor.
  - intros id versions v Hlookup Hin. unfold Scenario.twoProjects in Hlookup.
    cbn [cardVersions] in Hlookup.
    apply lookup_singleton_Some in Hlookup as [_ <-].
    apply list_elem_of_singleton in Hin as ->. split; reflexivity.
Defined.

(** ** Undo as a stack *)


(** Closes [is_Some (getActiveProject s')] for a state [s'] whose projects
    come from [mapActiveProject] with an updater that keeps the id. *)
Ltac still_active Hactive Hps :=
  lazymatch type of Hps with
  | mapActiveProject ?s ?u = Some ?ps =>
      cbn [from_option id];
      lazymatch goal with
      | |- is_Some (getActiveProject (mkState ps _ ?cs ?vs ?l ?e)) =>
          rewrite (getActiveProject_mapped s _ u ps cs vs l e
                     Hactive eq_refl Hps);
          by eexists
      end
  end.


(** One undo step on a history that ends in [previousVersion]. *)
Lemma undo_step w state activeProject id earlier previousVersion :
  getActiveProject state = Some activeProject →
  cardVersions state !! id = Some (earlier ++ [previousVersion]) →
  ∃ state',
    boardReducer w state (UNDO_CARD id) = Returns state'
    ∧ is_Some (getActiveProject state')
    ∧ cards state' !! id
      = Some (restoreFromData id (CardVersion.data previousVersion) (clock w 0))
    ∧ cardVersions state' !! id = Some earlier.
Proof.
  intros Hactive Hversions.
  unfold boardReducer. rewrite Hversions, last_snoc, Hactive.
  match goal with
  | |- context [mapActiveProject state ?u] =>
      destruct (mapActiveProject_some state activeProject u Hactive)
        as [ps Hps]; rewrite Hps
  end.
  eexists. split; [reflexivity|].
  split; [still_active Hactive Hps|].
  cbn. rewrite !lookup_insert_eq. split; [done|].
  f_equal. rewrite length_app. cbn.
  replace (length earlier + 1 - 1)%nat with (length earlier) by lia.
  apply take_app_length.
Qed.




(** ** Lane membership *)

Lemma heldIn_elem k (project : Project) x :
  x ∈ heldIn k project
  ↔ ∃ lane, lane ∈ Project.lanes project
            ∧ k ∈ Lane.cardIds lane
            ∧ x = (Project.id project, Lane.id lane).
Proof.
  unfold heldIn. rewrite list_elem_of_bind. split.
  - intros (lane & Hx & Hlane). case_bool_decide; [|by apply elem_of_nil in Hx].
    apply list_elem_of_singleton in Hx. eauto.
  - intros (lane & Hlane & Hk & ->). exists lane. split; [|done].
    rewrite bool_decide_eq_true_2 by done. apply list_elem_of_here.
Qed.

Lemma lanesHolding_elem state k x :
  x ∈ lanesHolding state k
  ↔ ∃ project, project ∈ projects state ∧ x ∈ heldIn k project.
Proof.
  change (lanesHolding state k) with (projects state ≫= heldIn k).
  rewrite list_elem_of_bind. split; intros (project & ? & ?); eauto.
Qed.

Lemma empty_no_elem {A} (xs : list A) : (∀ x, x ∉ xs) → xs = [].
Proof.
  destruct xs as [|x xs]; [done|]. intros Hnone.
  destruct (Hnone x). apply list_elem_of_here.
Qed.

(** The active project splits the list of projects; with distinct ids no
    other project carries its id. *)
Lemma active_project_split state activeProject :
  distinctProjectIds state →
  getActiveProject state = Some activeProject →
  ∃ before after,
    projects state = before ++ activeProject :: after
    ∧ ∀ project, project ∈ before ++ after →
                 Project.id project ≠ Project.id activeProject.
Proof.
  unfold distinctProjectIds, getActiveProject. intros Hnodup Hactive.
  destruct (activeProjectId state) as [aid|]; [|done].
  case_bool_decide; [done|].
  apply find_some in Hactive as [Hin _].
  apply list_elem_of_In, list_elem_of_split in Hin as (before & after & Hsplit).
  exists before, after. split; [done|].
  rewrite Hsplit, fmap_app, fmap_cons in Hnodup.
  apply NoDup_app in Hnodup as (_ & Hbefore & Hafter).
  apply NoDup_cons in Hafter as [Hafter _].
  intros project [Hin|Hin]%elem_of_app Heq.
  - apply (Hbefore (Project.id project)).
    + apply list_elem_of_fmap. eauto.
    + rewrite Heq. apply list_elem_of_here.
  - apply Hafter. rewrite <- Heq. apply list_elem_of_fmap. eauto.
Qed.

(** What [mapActiveProject] returns, under the same hypotheses. *)
Lemma mapActiveProject_split state activeProject updater before after :
  getActiveProject state = Some activeProject →
  projects state = before ++ activeProject :: after →
  (∀ project, project ∈ before ++ after →
              Project.id project ≠ Project.id activeProject) →
  mapActiveProject state updater
  = Some (before ++ updater activeProject :: after).
Proof.
  intros Hactive Hsplit Hothers. unfold mapActiveProject.
  rewrite Hactive, Hsplit, fmap_app, fmap_cons. f_equal.
  rewrite bool_decide_eq_true_2 by done.
  assert (Hkeep : ∀ ps : list Project,
            (∀ project, project ∈ ps →
                        Project.id project ≠ Project.id activeProject) →
            (λ project,
               if bool_decide (Project.id project = Project.id activeProject)
               then updater activeProject else project) <$> ps = ps).
  { intros ps Hps. rewrite <- (list_fmap_id ps) at 2.
    apply list_fmap_ext. intros i project Hlookup.
    rewrite bool_decide_eq_false_2; [done|].
    apply Hps. by eapply list_elem_of_lookup_2. }
  rewrite !Hkeep; [done|..]; intros project Hin; apply Hothers;
    apply elem_of_app; auto.
Qed.

(** The lanes that hold a card, before and after the active project has been
    replaced. *)
Lemma lanesHolding_split ps aid cs vs loading err before after
    (project : Project) k :
  ps = before ++ project :: after →
  lanesHolding (mkState ps aid cs vs loading err) k
  = (before ≫= heldIn k) ++ heldIn k project ++ (after ≫= heldIn k).
Proof.
  intros ->.
  change (lanesHolding _ k) with ((before ++ project :: after) ≫= heldIn k).
  by rewrite bind_app, bind_cons.
Qed.

Lemma others_hold_nothing k (activeProject : Project) lid
    (before after : list Project) :
  (∀ project, project ∈ before ++ after →
              Project.id project ≠ Project.id activeProject) →
  (before ≫= heldIn k) ++ heldIn k activeProject ++ (after ≫= heldIn k)
  = [(Project.id activeProject, lid)] →
  before ≫= heldIn k = [] ∧ after ≫= heldIn k = []
  ∧ heldIn k activeProject = [(Project.id activeProject, lid)].
Proof.
  intros Hothers Hheld.
  assert (Hnone : ∀ ps : list Project,
            (∀ project, project ∈ ps →
                        Project.id project ≠ Project.id activeProject) →
            (∀ x, x ∈ ps ≫= heldIn k → x = (Project.id activeProject, lid)) →
            ps ≫= heldIn k = []).
  { intros ps Hps Hall. apply empty_no_elem. intros x Hx.
    specialize (Hall x Hx). subst x.
    apply list_elem_of_bind in Hx as (project & Hx & Hin).
    apply heldIn_elem in Hx as (lane & _ & _ & [= Heq _]).
    by apply (Hps project Hin). }
  assert (Hbefore : before ≫= heldIn k = []).
  { apply Hnone.
    - intros project Hin. apply Hothers, elem_of_app. auto.
    - intros x Hx. apply list_elem_of_singleton. rewrite <- Hheld.
      apply elem_of_app. auto. }
  assert (Hafter : after ≫= heldIn k = []).
  { apply Hnone.
    - intros project Hin. apply Hothers, elem_of_app. auto.
    - intros x Hx. apply list_elem_of_singleton. rewrite <- Hheld.
      rewrite !elem_of_app. auto. }
  rewrite Hbefore, Hafter, app_nil_r in Hheld. done.
Qed.

Lemma foreign_project_holds_nothing k (activeProject : Project) pid lid
    (before after : list Project) :
  pid ≠ Project.id activeProject →
  (before ≫= heldIn k) ++ heldIn k activeProject ++ (after ≫= heldIn k)
  = [(pid, lid)] →
  heldIn k activeProject = [].
Proof.
  intros Hforeign Hheld. apply empty_no_elem. intros x Hx.
  assert (Hin : x ∈ [(pid, lid)]).
  { rewrite <- Hheld, !elem_of_app. auto. }
  apply list_elem_of_singleton in Hin as ->.
  apply heldIn_elem in Hx as (lane & _ & _ & [= Heq _]). done.
Qed.

(** A rewriting of the lanes that keeps their ids and, for the card [k],
    their membership, keeps the lanes that hold [k]. *)
Lemma heldIn_same k (g : Lane.t → Lane.t) now (project : Project) :
  (∀ lane, lane ∈ Project.lanes project →
           Lane.id (g lane) = Lane.id lane
           ∧ (k ∈ Lane.cardIds (g lane) ↔ k ∈ Lane.cardIds lane)) →
  heldIn k (Project.with_lanes (g <$> Project.lanes project) now project)
  = heldIn k project.
Proof.
  intros Hg. unfold heldIn. cbn [Project.lanes Project.with_lanes Project.id].
  rewrite list_fmap_bind. apply Forall_bind_ext, Forall_forall.
  intros lane Hin. destruct (Hg lane Hin) as [Hid Hmem]. cbn.
  by rewrite Hid, (bool_decide_ext _ _ Hmem).
Qed.

(** A rewriting of the lanes, of distinct ids, after which exactly the lane
    [target] lists the card [k]. *)
Lemma heldIn_placed k (g : Lane.t → Lane.t) now (project : Project) target :
  NoDup (Lane.id <$> Project.lanes project) →
  (∃ lane, lane ∈ Project.lanes project ∧ Lane.id lane = target) →
  (∀ lane, lane ∈ Project.lanes project →
           Lane.id (g lane) = Lane.id lane
           ∧ (k ∈ Lane.cardIds (g lane) ↔ Lane.id lane = target)) →
  heldIn k (Project.with_lanes (g <$> Project.lanes project) now project)
  = [(Project.id project, target)].
Proof.
  intros Hnodup Hexists Hg. unfold heldIn.
  cbn [Project.lanes Project.with_lanes Project.id].
  rewrite list_fmap_bind.
  assert (Hgen : ∀ lanes : list Lane.t,
            NoDup (Lane.id <$> lanes) →
            (∀ lane, lane ∈ lanes →
                     Lane.id (g lane) = Lane.id lane
                     ∧ (k ∈ Lane.cardIds (g lane) ↔ Lane.id lane = target)) →
            lanes ≫= ((λ lane,
                         if bool_decide (k ∈ Lane.cardIds lane)
                         then [(Project.id project, Lane.id lane)]
                         else []) ∘ g)
            = if bool_decide (target ∈ Lane.id <$> lanes)
              then [(Project.id project, target)] else []).
  { induction lanes as [|lane lanes IH]; intros Hnd Hall; [done|].
    rewrite fmap_cons in Hnd. apply NoDup_cons in Hnd as [Hfresh Hnd].
    rewrite bind_cons, IH; [|done|by intros l Hl; apply Hall; right].
    destruct (Hall lane) as [Hid Hmem]; [by left|]. cbn [compose].
    rewrite Hid, (bool_decide_ext _ _ Hmem), fmap_cons.
    destruct (decide (Lane.id lane = target)) as [Heq|Hne].
    - rewrite (bool_decide_eq_true_2 _ Heq).
      rewrite (bool_decide_eq_true_2 (target ∈ _ :: _))
        by (rewrite Heq; left).
      rewrite bool_decide_eq_false_2 by by rewrite <- Heq.
      by rewrite Heq.
    - rewrite (bool_decide_eq_false_2 _ Hne). cbn [app].
      apply (f_equal (λ b : bool, if b then _ else _)), bool_decide_ext.
      rewrite elem_of_cons.
      split; [auto|intros [Heq|?]; [by destruct Hne|done]]. }
  rewrite Hgen by done.
  rewrite bool_decide_eq_true_2; [done|].
  destruct Hexists as (lane & Hin & <-). apply list_elem_of_fmap. eauto.
Qed.

(** The common part of the proofs that an action on one card keeps I1: the
    lanes of the active project are rewritten by [g], which keeps ids and
    the membership of every other card, and the card [c] is overwritten. *)
Lemma I1_lane_map state activeProject (g : Lane.t → Lane.t) now c card'
    ps' vs' loading' err' :
  distinctProjectIds state →
  I1 state →
  getActiveProject state = Some activeProject →
  mapActiveProject state
    (Project.with_lanes (g <$> Project.lanes activeProject) now) = Some ps' →
  (∀ k lane, k ≠ c → lane ∈ Project.lanes activeProject →
             Lane.id (g lane) = Lane.id lane
             ∧ (k ∈ Lane.cardIds (g lane) ↔ k ∈ Lane.cardIds lane)) →
  (Card.isDeleted card' = false →
   lanesHolding (mkState ps' (activeProjectId state)
                         (<[c := card']> (cards state)) vs' loading' err') c
   = [(Card.projectId card', Card.laneId card')]) →
  I1 (mkState ps' (activeProjectId state) (<[c := card']> (cards state))
              vs' loading' err').
Proof.
  intros Hdistinct Hinv Hactive Hps Hg Hplaced k card Hcard Hlive.
  cbn [cards] in Hcard.
  apply lookup_insert_Some in Hcard as [[<- <-]|[Hne Hcard]]; [by apply Hplaced|].
  destruct (active_project_split state activeProject Hdistinct Hactive)
    as (before & after & Hsplit & Hothers).
  rewrite (mapActiveProject_split _ _ _ _ _ Hactive Hsplit Hothers) in Hps.
  injection Hps as <-.
  erewrite lanesHolding_split by reflexivity.
  rewrite heldIn_same by (intros lane Hin; by apply Hg).
  rewrite <- (Hinv k card Hcard Hlive).
  destruct state as [ps aid cs vs loading err]. cbn in Hsplit.
  by erewrite lanesHolding_split.
Qed.

Lemma held_lane_id k (project : Project) pid lid lane :
  heldIn k project = [(pid, lid)] →
  lane ∈ Project.lanes project →
  k ∈ Lane.cardIds lane →
  Lane.id lane = lid.
Proof.
  intros Hheld Hlane Hk.
  assert (Hin : (Project.id project, Lane.id lane) ∈ heldIn k project).
  { apply heldIn_elem. eauto. }
  rewrite Hheld in Hin. by apply list_elem_of_singleton in Hin as [= _ ->].
Qed.

Lemma held_nowhere k (project : Project) lane :
  heldIn k project = [] →
  lane ∈ Project.lanes project →
  k ∉ Lane.cardIds lane.
Proof.
  intros Hheld Hlane Hk.
  assert (Hin : (Project.id project, Lane.id lane) ∈ heldIn k project).
  { apply heldIn_elem. eauto. }
  rewrite Hheld in Hin. by apply elem_of_nil in Hin.
Qed.


Lemma filter_ne_elem (xs : list string) c k :
  k ∈ filter (λ id, id ≠ c) xs ↔ k ≠ c ∧ k ∈ xs.
Proof. exact (list_elem_of_filter (λ id, id ≠ c) xs k). Qed.

(** DELETE_CARD keeps I1 on any board whose projects have distinct ids. *)
Theorem delete_card_keeps_I1 w state id state' :
  distinctProjectIds state →
  I1 state →
  boardReducer w state (DELETE_CARD id) = Returns state' →
  I1 state'.
Proof.
  intros Hdistinct Hinv Hrun. unfold boardReducer in Hrun. cbv zeta in Hrun.
  destruct (cards state !! id) as [existingCard|] eqn:Hcard;
    [|by apply absent_card_step in Hrun as ->].
  destruct (getActiveProject state) as [activeProject|] eqn:Hactive;
    [|by simplify_eq].
  lazymatch type of Hrun with
  | context [mapActiveProject state ?u] =>
      destruct (mapActiveProject_some state activeProject u Hactive)
        as [ps Hps]
  end.
  rewrite Hps in Hrun. injection Hrun as <-. cbn [from_option Datatypes.id].
  eapply I1_lane_map; [done|done|done|exact Hps| |].
  - intros k lane Hne _. cbv beta. case_bool_decide; [|done].
    split; [done|]. cbn. rewrite filter_ne_elem. tauto.
  - discriminate.
Qed.

Lemma I1_oneLane : I1 Sample.oneLane.
Proof.
  intros cardId card Hcard _. unfold Sample.oneLane in Hcard.
  cbn [cards] in Hcard.
  apply lookup_singleton_Some in Hcard as [<- <-]. reflexivity.
Qed.

Lemma delete_card_keeps_I1_witness :
  ∃ state',
    boardReducer Sample.world Sample.oneLane (DELETE_CARD "c1") = Returns state'
    ∧ I1 state'.
Proof.
  eexists. split; [reflexivity|].
  eapply (delete_card_keeps_I1 Sample.world Sample.oneLane "c1");
    [|exact I1_oneLane|reflexivity].
  apply NoDup_singleton.
Defined.

Lemma lanesHolding_state_split state before after (project : Project) k :
  projects state = before ++ project :: after →
  lanesHolding state k
  = (before ≫= heldIn k) ++ heldIn k project ++ (after ≫= heldIn k).
Proof.
  destruct state as [ps aid cs vs loading err]. cbn [projects].
  apply lanesHolding_split.
Qed.


Lemma I1_twoLanes : I1 Sample.twoLanes.
Proof.
  intros cardId card Hcard _. unfold Sample.twoLanes in Hcard.
  cbn [cards] in Hcard.
  repeat (apply lookup_insert_Some in Hcard as [[<- <-]|[_ Hcard]];
          [reflexivity|]).
  apply lookup_singleton_Some in Hcard as [<- <-]. reflexivity.
Qed.

Lemma NoDup_two (a b : string) : a ≠ b → NoDup [a; b].
Proof.
  intros Hne. apply NoDup_cons. split; [|apply NoDup_singleton].
  by intros ->%list_elem_of_singleton.
Qed.


Lemma held_nowhere_split k (before after : list Project) (project : Project) :
  (before ≫= heldIn k) ++ heldIn k project ++ (after ≫= heldIn k) = [] →
  before ≫= heldIn k = [] ∧ after ≫= heldIn k = [] ∧ heldIn k project = [].
Proof.
  intros Hnil. apply app_eq_nil in Hnil as [Hbefore Hrest].
  apply app_eq_nil in Hrest as [Hown Hafter]. done.
Qed.

(** The lanes after an id has been appended to the lane [target] of the
    active project, when no lane listed it: exactly that lane lists it. *)
Lemma appended_is_placed state activeProject before after c target now
    aid cs vs loading err :
  projects state = before ++ activeProject :: after →
  lanesHolding state c = [] →
  NoDup (Lane.id <$> Project.lanes activeProject) →
  (∃ lane, lane ∈ Project.lanes activeProject ∧ Lane.id lane = target) →
  lanesHolding
    (mkState
       (before
        ++ Project.with_lanes
             ((λ lane,
                 if bool_decide (Lane.id lane = target)
                 then Lane.with_cardIds (Lane.cardIds lane ++ [c]) lane
                 else lane) <$> Project.lanes activeProject)
             now activeProject
        :: after)
       aid cs vs loading err) c
  = [(Project.id activeProject, target)].
Proof.
  intros Hsplit Hnowhere Hlanes Htarget.
  rewrite (lanesHolding_state_split state before after activeProject c Hsplit)
    in Hnowhere.
  apply held_nowhere_split in Hnowhere as (Hbefore & Hafter & Hown).
  erewrite lanesHolding_split by reflexivity.
  rewrite Hbefore, Hafter, app_nil_r. cbn [app].
  apply heldIn_placed; [done|done|].
  intros lane Hin. cbv beta.
  destruct (decide (Lane.id lane = target)) as [Hto|Hto].
  - rewrite (bool_decide_eq_true_2 _ Hto). split; [done|]. cbn.
    rewrite elem_of_app, list_elem_of_singleton. tauto.
  - rewrite (bool_decide_eq_false_2 _ Hto). split; [done|].
    split; [|done]. intros Hk. by destruct (held_nowhere _ _ _ Hown Hin).
Qed.

Lemma append_keeps_others (k c target : string) (lane : Lane.t) :
  k ≠ c →
  Lane.id (if bool_decide (Lane.id lane = target)
           then Lane.with_cardIds (Lane.cardIds lane ++ [c]) lane
           else lane) = Lane.id lane
  ∧ (k ∈ Lane.cardIds (if bool_decide (Lane.id lane = target)
                       then Lane.with_cardIds (Lane.cardIds lane ++ [c]) lane
                       else lane)
     ↔ k ∈ Lane.cardIds lane).
Proof.
  intros Hne. destruct (bool_decide (Lane.id lane = target)); [|done].
  split; [done|]. cbn. rewrite elem_of_app, list_elem_of_singleton. tauto.
Qed.

(** RESTORE_CARD keeps I1 when the projects and the lanes of the active
    project have distinct ids, the card belongs to the active project, its
    lane is one of the project's lanes and no lane lists it (the state in
    which DELETE_CARD leaves a card of the active project). *)
Theorem restore_card_keeps_I1 w state activeProject id card :
  distinctProjectIds state →
  I1 state →
  getActiveProject state = Some activeProject →
  NoDup (Lane.id <$> Project.lanes activeProject) →
  cards state !! id = Some card →
  Card.isDeleted card = true →
  Card.projectId card = Project.id activeProject →
  (∃ lane, lane ∈ Project.lanes activeProject
           ∧ Lane.id lane = Card.laneId card) →
  lanesHolding state id = [] →
  ∃ state' card',
    boardReducer w state (RESTORE_CARD id) = Returns state'
    ∧ cards state' !! id = Some card'
    ∧ Card.isDeleted card' = false
    ∧ I1 state'.
Proof.
  intros Hdistinct Hinv Hactive Hlanes Hcard Hdeleted Hproject Htarget Hnowhere.
  unfold boardReducer. cbv zeta. rewrite Hcard, Hdeleted, Hactive.
  cbn [negb].
  destruct (active_project_split state activeProject Hdistinct Hactive)
    as (before & after & Hsplit & Hothers).
  lazymatch goal with
  | |- context [mapActiveProject state ?u] =>
      pose proof (mapActiveProject_split state activeProject u before after
                    Hactive Hsplit Hothers) as Hps
  end.
  rewrite Hps. cbn [from_option Datatypes.id].
  do 2 eexists. split; [reflexivity|].
  split; [cbn [cards]; apply lookup_insert_eq|]. split; [reflexivity|].
  eapply I1_lane_map; [done|done|done|exact Hps| |].
  - intros k lane Hne _. by apply append_keeps_others.
  - intros _.
    cbn [Card.projectId Card.laneId Card.with_updatedAt Card.with_isDeleted].
    rewrite Hproject. by eapply appended_is_placed.
Qed.

(** ADD_CARD keeps I1 when the projects and the lanes of the active project
    have distinct ids, the lane named by the payload is one of the project's
    lanes and no lane lists the generated id yet. *)
Theorem add_card_keeps_I1 w state activeProject payload :
  distinctProjectIds state →
  I1 state →
  getActiveProject state = Some activeProject →
  NoDup (Lane.id <$> Project.lanes activeProject) →
  (∃ lane, lane ∈ Project.lanes activeProject
           ∧ Lane.id lane = NewCard.laneId payload) →
  lanesHolding state (generateId w 0) = [] →
  ∃ state' card',
    boardReducer w state (ADD_CARD payload) = Returns state'
    ∧ cards state' !! generateId w 0 = Some card'
    ∧ Card.isDeleted card' = false
    ∧ Card.projectId card' = Project.id activeProject
    ∧ I1 state'.
Proof.
  intros Hdistinct Hinv Hactive Hlanes Htarget Hfresh.
  unfold boardReducer. cbv zeta. rewrite Hactive.
  destruct (active_project_split state activeProject Hdistinct Hactive)
    as (before & after & Hsplit & Hothers).
  lazymatch goal with
  | |- context [mapActiveProject state ?u] =>
      pose proof (mapActiveProject_split state activeProject u before after
                    Hactive Hsplit Hothers) as Hps
  end.
  rewrite Hps.
  do 2 eexists. split; [reflexivity|].
  split; [cbn [cards Card.id]; apply lookup_insert_eq|].
  split; [reflexivity|]. split; [reflexivity|].
  cbn [Card.id].
  eapply I1_lane_map; [done|done|done|exact Hps| |].
  - intros k lane Hne _. by apply append_keeps_others.
  - intros _. cbn [Card.projectId Card.laneId].
    by eapply appended_is_placed.
Qed.

Lemma restore_card_keeps_I1_witness :
  ∃ state' card',
    boardReducer Sample.world Scenario.deleted (RESTORE_CARD "c1")
    = Returns state'
    ∧ cards state' !! "c1" = Some card'
    ∧ Card.isDeleted card' = false
    ∧ I1 state'.
Proof.
  apply (restore_card_keeps_I1 Sample.world Scenario.deleted
           (Sample.project "p1" [Lane.mk "todo" "Todo" 0 []]) "c1"
           (Card.with_isDeleted true (Sample.card "c1" "p1" "todo"))).
  - apply NoDup_singleton.
  - intros cardId card Hcard Hlive. unfold Scenario.deleted in Hcard.
    cbn [cards] in Hcard.
    apply lookup_singleton_Some in Hcard as [<- <-]. discriminate Hlive.
  - reflexivity.
  - apply NoDup_singleton.
  - reflexivity.
  - reflexivity.
  - reflexivity.
  - exists (Lane.mk "todo" "Todo" 0 []). split; [apply list_elem_of_here|done].
  - reflexivity.
Defined.

Lemma add_card_keeps_I1_witness :
  ∃ state' card',
    boardReducer Sample.world Sample.emptyBoard
                 (ADD_CARD (Sample.newCard "todo")) = Returns state'
    ∧ cards state' !! "g0" = Some card'
    ∧ Card.isDeleted card' = false
    ∧ Card.projectId card' = "p1"
    ∧ I1 state'.
Proof.
  apply (add_card_keeps_I1 Sample.world Sample.emptyBoard
           (Sample.project "p1" [Lane.mk "todo" "Todo" 0 []])
           (Sample.newCard "todo")).
  - apply NoDup_singleton.
  - exact I1_emptyBoard.
  - reflexivity.
  - apply NoDup_singleton.
  - exists (Lane.mk "todo" "Todo" 0 []). split; [apply list_elem_of_here|done].
  - reflexivity.
Defined.

Lemma bind_filter_same {A B} (P : A → Prop) `{∀ x, Decision (P x)}
    (F : A → list B) (xs : list A) :
  (∀ x, x ∈ xs → ¬ P x → F x = []) →
  filter P xs ≫= F = xs ≫= F.
Proof.
  induction xs as [|x xs IH]; intros Hnil; [done|].
  rewrite bind_cons. destruct (decide (P x)) as [Hx|Hx].
  - rewrite filter_cons_True, bind_cons by done. f_equal.
    apply IH. intros y Hy. apply Hnil. by right.
  - rewrite filter_cons_False by done.
    rewrite (Hnil x) by (done || by left). cbn [app].
    apply IH. intros y Hy. apply Hnil. by right.
Qed.

Lemma default_lanes_hold_nothing w first k title url created updated pid :
  heldIn k (Project.mk pid title url (createDefaultLanes w first)
                       created updated) = [].
Proof. reflexivity. Qed.

(** The actions on projects keep I1 without side condition: ADD_PROJECT adds
    a project whose lanes are empty, DELETE_PROJECT removes the cards of the
    project together with the project, SET_ACTIVE_PROJECT touches neither
    lanes nor cards.  ADD_LANE keeps I1 when the projects have distinct
    ids. *)
Theorem project_actions_keep_I1 w state action state' :
  I1 state →
  match action with
  | ADD_PROJECT _ _ | DELETE_PROJECT _ | SET_ACTIVE_PROJECT _ => True
  | ADD_LANE _ => distinctProjectIds state
  | _ => False
  end →
  boardReducer w state action = Returns state' →
  I1 state'.
Proof.
  intros Hinv Hside Hrun. destruct action; try done.
  - (* ADD_LANE *)
    unfold boardReducer in Hrun. cbv zeta in Hrun.
    destruct (getActiveProject state) as [activeProject|] eqn:Hactive;
      [|by simplify_eq].
    destruct (active_project_split state activeProject Hside Hactive)
      as (before & after & Hsplit & Hothers).
    lazymatch type of Hrun with
    | context [mapActiveProject state ?u] =>
        rewrite (mapActiveProject_split state activeProject u before after
                   Hactive Hsplit Hothers) in Hrun
    end.
    injection Hrun as <-. cbn [from_option Datatypes.id].
    intros k card Hcard Hlive. cbn [cards] in Hcard.
    rewrite <- (Hinv k card Hcard Hlive).
    erewrite lanesHolding_split by reflexivity.
    rewrite (lanesHolding_state_split state before after activeProject k Hsplit).
    do 2 f_equal. unfold heldIn.
    cbn [Project.lanes Project.with_lanes Project.id].
    rewrite bind_app, bind_singleton. cbn [Lane.cardIds].
    rewrite bool_decide_eq_false_2 by apply not_elem_of_nil.
    by rewrite app_nil_r.
  - (* ADD_PROJECT *)
    unfold boardReducer in Hrun. cbv zeta in Hrun. injection Hrun as <-.
    intros k card Hcard Hlive. cbn [cards] in Hcard.
    rewrite <- (Hinv k card Hcard Hlive).
    change (lanesHolding ?s k) with (projects s ≫= heldIn k).
    cbn [projects]. rewrite bind_app, bind_singleton.
    rewrite default_lanes_hold_nothing. by rewrite app_nil_r.
  - (* DELETE_PROJECT *)
    unfold boardReducer in Hrun. cbv zeta in Hrun.
    repeat case_match; simplify_eq; try done.
    all: intros k card Hcard Hlive; cbn [cards] in Hcard;
      apply map_lookup_filter_Some in Hcard as [Hcard Hkeep];
      unfold keepsCard in Hkeep; cbn in Hkeep;
      rewrite <- (Hinv k card Hcard Hlive);
      change (lanesHolding ?s k) with (projects s ≫= heldIn k);
      cbn [projects]; apply bind_filter_same;
      intros project Hin Hgone; apply dec_stable in Hgone;
      apply empty_no_elem; intros x Hx;
      assert (Hheld : x ∈ lanesHolding state k)
        by (apply lanesHolding_elem; eauto);
      rewrite (Hinv k card Hcard Hlive) in Hheld;
      apply list_elem_of_singleton in Hheld as ->;
      apply heldIn_elem in Hx as (lane & _ & _ & [= Heq _]);
      congruence.
  - (* SET_ACTIVE_PROJECT *)
    cbn in Hrun. injection Hrun as <-. exact Hinv.
Qed.

Lemma project_actions_keep_I1_witness :
  ∃ state',
    boardReducer Sample.world Sample.oneLane (ADD_LANE "Later") = Returns state'
    ∧ I1 state'.
Proof.
  eexists. split; [reflexivity|].
  eapply (project_actions_keep_I1 Sample.world Sample.oneLane (ADD_LANE "Later"));
    [exact I1_oneLane| |reflexivity].
  apply NoDup_singleton.
Defined.

(** ** Projects *)

(** DELETE_PROJECT of an existing project, when another project remains:
    the project is gone and the others are kept; a card stays exactly when it
    belongs to another project; a history stays exactly when no card of the
    deleted project is stored under its key; the active project changes
    only if it was the deleted one, and then to the first project left. *)
Theorem delete_project_cascade w state pid :
  (∃ project, project ∈ projects state ∧ Project.id project = pid) →
  (∃ project, project ∈ projects state ∧ Project.id project ≠ pid) →
  ∃ state',
    boardReducer w state (DELETE_PROJECT pid) = Returns state'
    ∧ (∀ project, project ∈ projects state'
                  ↔ project ∈ projects state ∧ Project.id project ≠ pid)
    ∧ (∀ k card, cards state' !! k = Some card
                 ↔ cards state !! k = Some card ∧ Card.projectId card ≠ pid)
    ∧ (∀ k versions,
         cardVersions state' !! k = Some versions
         ↔ cardVersions state !! k = Some versions
           ∧ ∀ card, cards state !! k = Some card → Card.projectId card ≠ pid)
    ∧ (activeProjectId state ≠ Some pid →
       activeProjectId state' = activeProjectId state)
    ∧ (activeProjectId state = Some pid →
       ∃ first, head (projects state') = Some first
                ∧ activeProjectId state' = Some (Project.id first))
    ∧ error state' = error state.
Proof.
  intros (gone & Hgone & Hpid) (kept & Hkept & Hother).
  unfold boardReducer. cbv zeta.
  set (remaining := filter (λ project : Project, Project.id project ≠ pid)
                           (projects state)).
  assert (Hshorter : (length remaining < length (projects state))%nat).
  { apply (length_filter_lt _ _ gone); [done|]. intros Hne. by apply Hne. }
  assert (Hin : kept ∈ remaining) by by apply list_elem_of_filter.
  rewrite bool_decide_eq_false_2 by lia.
  rewrite bool_decide_eq_false_2
    by (intros Hzero; apply nil_length_inv in Hzero; rewrite Hzero in Hin;
        by apply elem_of_nil in Hin).
  eexists. split; [reflexivity|]. cbn.
  split; [|split; [|split; [|split; [|split]]]].
  - intros project. subst remaining. rewrite list_elem_of_filter. tauto.
  - intros k card. rewrite map_lookup_filter_Some. unfold keepsCard. done.
  - intros k versions. rewrite map_lookup_filter_Some.
    unfold keepsVersions. cbn.
    destruct (cards state !! k) as [card|]; split; intros [Hlookup Hkeep];
      (split; [done|]); try done.
    + by intros ? [= <-].
    + by apply Hkeep.
  - intros Hne. by rewrite bool_decide_eq_false_2.
  - intros Heq. rewrite bool_decide_eq_true_2 by done.
    destruct remaining as [|first rest]; [by apply elem_of_nil in Hin|].
    by exists first.
  - done.
Qed.

Lemma delete_project_cascade_witness :
  ∃ state',
    boardReducer Sample.world Scenario.twoProjects (DELETE_PROJECT "p2")
    = Returns state'
    ∧ cards state' !! "c2" = None
    ∧ is_Some (cards state' !! "c1")
    ∧ activeProjectId state' = Some "p1".
Proof.
  destruct (delete_project_cascade Sample.world Scenario.twoProjects "p2")
    as (state' & Hrun & Hprojects & Hcards & _ & _ & Hactive & _).
  - eexists. split; [apply list_elem_of_further, list_elem_of_here|done].
  - eexists. split; [apply list_elem_of_here|done].
  - exists state'. split; [exact Hrun|]. split; [|split].
    + destruct (cards state' !! "c2") as [card|] eqn:Hc2; [|done].
      apply Hcards in Hc2 as [Hc2 Hne].
      vm_compute in Hc2. injection Hc2 as <-. by destruct Hne.
    + exists (Sample.card "c1" "p1" "todo"). apply Hcards. split; [done|].
      discriminate.
    + destruct (Hactive eq_refl) as (first & Hfirst & ->).
      assert (Hhead : head (projects state')
                      = Some (Sample.project "p1"
                                [Lane.mk "todo" "Todo" 0 ["c1"]])).
      { injection Hrun as <-. reflexivity. }
      rewrite Hfirst in Hhead. by injection Hhead as ->.
Defined.

Lemma conditional_map_ids (u : Project → Project) (P : Project → bool)
    (ps : list Project) :
  (∀ p, Project.id (u p) = Project.id p) →
  Project.id <$> ((λ p, if P p then u p else p) <$> ps) = Project.id <$> ps.
Proof.
  intros Hid. rewrite <- list_fmap_compose. apply list_fmap_ext.
  intros i p _. cbn. by destruct (P p).
Qed.

Lemma mapActiveProject_ids state u ps' :
  mapActiveProject state u = Some ps' →
  (∀ p, Project.id (u p) = Project.id p) →
  Project.id <$> ps' = Project.id <$> projects state.
Proof.
  unfold mapActiveProject. intros Hmap Hid.
  destruct (getActiveProject state) as [activeProject|]; [|done].
  injection Hmap as <-. rewrite <- list_fmap_compose. apply list_fmap_ext.
  intros i p _. cbn. case_bool_decide; [|done]. by rewrite Hid.
Qed.

Lemma default_map_ids state u :
  (∀ p, Project.id (u p) = Project.id p) →
  Project.id <$> default (projects state) (mapActiveProject state u)
  = Project.id <$> projects state.
Proof.
  intros Hid. destruct (mapActiveProject state u) as [ps'|] eqn:Hmap; [|done].
  by eapply mapActiveProject_ids.
Qed.

Lemma I5_same_ids state ps' cs vs loading err :
  I5 state →
  Project.id <$> ps' = Project.id <$> projects state →
  I5 (mkState ps' (activeProjectId state) cs vs loading err).
Proof.
  intros Hinv Hids a Ha. cbn in Ha.
  destruct (Hinv a Ha) as (project & Hin & Hid).
  assert (Hmem : a ∈ Project.id <$> ps').
  { rewrite Hids. apply list_elem_of_fmap. eauto. }
  apply list_elem_of_fmap in Hmem as (project' & -> & Hin'). eauto.
Qed.

(** I5 is an invariant of the reducer: a non-null [activeProjectId] keeps
    naming a project under every action, provided SET_ACTIVE_PROJECT is
    given the id of a project, UPDATE_PROJECT does not patch [id], and
    LOAD_STATE loads a state that has the property. *)
Theorem active_project_stays_valid w state action state' :
  I5 state →
  match action with
  | SET_ACTIVE_PROJECT id =>
      ∃ project, project ∈ projects state ∧ Project.id project = id
  | UPDATE_PROJECT _ updates => ProjectUpdates.id updates = None
  | LOAD_STATE payload => I5 payload
  | _ => True
  end →
  boardReducer w state action = Returns state' →
  I5 state'.
Proof.
  intros Hinv Hside Hrun.
  destruct action; unfold boardReducer, inheritedCardStep in Hrun;
    cbv zeta in Hrun;
    repeat case_match; simplify_eq; try done;
    try (apply I5_same_ids; [done|]; first
           [ reflexivity
           | by apply default_map_ids
           | by eapply mapActiveProject_ids ]).
  - (* ADD_PROJECT *)
    intros a [= <-]. eexists. cbn [projects].
    split; [apply elem_of_app; right; apply list_elem_of_here|reflexivity].
  - (* UPDATE_PROJECT *)
    apply I5_same_ids; [done|].
    apply (conditional_map_ids
             (λ p, Project.touch (clock w 0) (ProjectUpdates.apply updates p))
             (λ p, bool_decide (Project.id p = id))).
    intros p. cbn. by rewrite Hside.
  - (* DELETE_PROJECT, of the active project *)
    intros a Ha. cbn in Ha |- *.
    destruct (filter _ (projects state)) as [|first rest]; [done|].
    injection Ha as <-. exists first. split; [apply list_elem_of_here|done].
  - (* DELETE_PROJECT, of another project *)
    intros a Ha. cbn in Ha |- *.
    destruct (Hinv a Ha) as (project & Hin & <-).
    exists project. split; [|done]. apply list_elem_of_filter. split; [|done].
    intros Heq. match goal with
                | H : bool_decide (activeProjectId state = Some _) = false |- _ =>
                    apply bool_decide_eq_false in H; apply H
                end.
    by rewrite Ha, Heq.
  - (* SET_ACTIVE_PROJECT *)
    intros a [= <-]. exact Hside.
Qed.

Lemma active_project_stays_valid_witness :
  ∃ state',
    boardReducer Sample.world Scenario.twoProjects (DELETE_PROJECT "p2")
    = Returns state'
    ∧ I5 state'.
Proof.
  eexists. split; [reflexivity|].
  eapply (active_project_stays_valid Sample.world Scenario.twoProjects
            (DELETE_PROJECT "p2")); [|exact I|reflexivity].
  intros a [= <-]. eexists.
  split; [apply list_elem_of_further, list_elem_of_here|reflexivity].
Defined.

(** ** Lanes *)

(** ADD_LANE appends one lane to the active project and changes no other
    lane; the new lane is empty.  When the [order] of every lane is a safe
    integer, the [order] of the new lane is non-negative and greater than
    every one of them, so it sorts last.  The sum is a double: once the
    largest [order] is 2^53, the new lane receives 2^53 again. *)
Theorem add_lane_sorts_last w state activeProject title :
  getActiveProject state = Some activeProject →
  ∃ state' activeProject' newLane,
    boardReducer w state (ADD_LANE title) = Returns state'
    ∧ getActiveProject state' = Some activeProject'
    ∧ Project.lanes activeProject' = Project.lanes activeProject ++ [newLane]
    ∧ Lane.title newLane = title
    ∧ Lane.cardIds newLane = []
    ∧ ((∀ lane, lane ∈ Project.lanes activeProject →
                safeInteger (Lane.order lane)) →
       0 ≤ Lane.order newLane
       ∧ ∀ lane, lane ∈ Project.lanes activeProject →
                 Lane.order lane < Lane.order newLane)
    ∧ ((∀ lane, lane ∈ Project.lanes activeProject →
                Lane.order lane ≤ 2 ^ 53) →
       (∃ lane, lane ∈ Project.lanes activeProject
                ∧ Lane.order lane = 2 ^ 53) →
       Lane.order newLane = 2 ^ 53)
    ∧ cards state' = cards state
    ∧ cardVersions state' = cardVersions state.
Proof.
  intros Hactive. unfold boardReducer. cbv zeta. rewrite Hactive.
  lazymatch goal with
  | |- context [mapActiveProject state ?u] =>
      destruct (mapActiveProject_some state activeProject u Hactive)
        as [ps Hps];
      pose proof (getActiveProject_mapped state activeProject u ps
                    (cards state) (cardVersions state) (isLoading state)
                    (error state) Hactive eq_refl Hps) as Hstill
  end.
  rewrite Hps. cbn [from_option Datatypes.id].
  do 3 eexists. split; [reflexivity|]. split; [exact Hstill|].
  split; [reflexivity|]. split; [reflexivity|]. split; [reflexivity|].
  destruct (foldr_max_bound (-1)
              (Lane.order <$> Project.lanes activeProject)) as [Hfloor Hall].
  pose proof (foldr_max_attained (-1)
                (Lane.order <$> Project.lanes activeProject)) as Hattained.
  assert (Hbelow : ∀ lane, lane ∈ Project.lanes activeProject →
            Lane.order lane
            ≤ foldr Z.max (-1) (Lane.order <$> Project.lanes activeProject)).
  { intros lane Hin. apply Hall, list_elem_of_fmap. eauto. }
  cbn [Lane.order]. split; [|split; [|done]].
  - intros Hsafe.
    assert (Hmax : -1 ≤ foldr Z.max (-1)
                          (Lane.order <$> Project.lanes activeProject)
                   < 2 ^ 53).
    { split; [done|].
      apply elem_of_cons in Hattained as [->|Hattained]; [done|].
      apply list_elem_of_fmap in Hattained as (lane & -> & Hin).
      apply (Hsafe lane Hin). }
    rewrite plusOne_exact by (change (2 ^ 53) with 9007199254740992 in *; lia).
    split; [lia|]. intros lane Hin. specialize (Hbelow lane Hin). lia.
  - intros Hcap (top & Hin & Htop).
    assert (Hmax : foldr Z.max (-1)
                     (Lane.order <$> Project.lanes activeProject) = 2 ^ 53).
    { specialize (Hbelow top Hin).
      apply elem_of_cons in Hattained as [Hattained|Hattained].
      - rewrite Hattained in Hbelow. rewrite Htop in Hbelow. done.
      - apply list_elem_of_fmap in Hattained as (lane & Hlane & Hin').
        specialize (Hcap lane Hin'). lia. }
    rewrite Hmax. apply plusOne_limit.
Qed.

Lemma add_lane_sorts_last_witness :
  ∃ state' activeProject' newLane,
    boardReducer Sample.world Sample.twoLanes (ADD_LANE "Later") = Returns state'
    ∧ getActiveProject state' = Some activeProject'
    ∧ Project.lanes activeProject'
      = [Lane.mk "A" "Todo" 0 ["c1"; "c2"]; Lane.mk "B" "Done" 1 ["c3"];
         newLane]
    ∧ 1 < Lane.order newLane.
Proof.
  destruct (add_lane_sorts_last Sample.world Sample.twoLanes
              (Sample.project "p1" [Lane.mk "A" "Todo" 0 ["c1"; "c2"];
                                    Lane.mk "B" "Done" 1 ["c3"]])
              "Later" eq_refl)
    as (state' & activeProject' & newLane & Hrun & Hactive & Hlanes & _ & _
        & Hsorts & _).
  exists state', activeProject', newLane.
  split; [exact Hrun|]. split; [exact Hactive|]. split; [exact Hlanes|].
  destruct Hsorts as [_ Habove].
  - intros lane Hin. cbn in Hin.
    apply elem_of_cons in Hin as [->|Hin]; [split; reflexivity|].
    apply list_elem_of_singleton in Hin as ->. split; reflexivity.
  - apply (Habove (Lane.mk "B" "Done" 1 ["c3"])). cbn.
    apply list_elem_of_further, list_elem_of_here.
Defined.

(** ADD_PROJECT appends a project with the three default lanes, empty and
    ordered 0, 1, 2, and makes its id the active one.  [getActiveProject]
    then returns the new project exactly under the conditions read off the
    lookup: the generated id is not the empty string and no earlier project
    carries it. *)
Theorem add_project_becomes_active w state title thumbnailUrl :
  generateId w 0 ≠ "" →
  (∀ project, project ∈ projects state →
              Project.id project ≠ generateId w 0) →
  ∃ state' newProject,
    boardReducer w state (ADD_PROJECT title thumbnailUrl) = Returns state'
    ∧ projects state' = projects state ++ [newProject]
    ∧ getActiveProject state' = Some newProject
    ∧ Project.title newProject = title
    ∧ Lane.title <$> Project.lanes newProject = ["Todo"; "Doing"; "Done"]
    ∧ Lane.order <$> Project.lanes newProject = [0; 1; 2]
    ∧ Lane.cardIds <$> Project.lanes newProject = [[]; []; []]
    ∧ Lane.id <$> Project.lanes newProject
      = [generateId w 1; generateId w 2; generateId w 3]
    ∧ (distinctProjectIds state → distinctProjectIds state')
    ∧ cards state' = cards state.
Proof.
  intros Hnonempty Hfresh.
  do 2 eexists. split; [reflexivity|]. split; [reflexivity|].
  split; [|repeat split].
  - unfold getActiveProject. cbn [activeProjectId projects Project.id].
    rewrite bool_decide_eq_false_2 by done.
    induction (projects state) as [|project ps IH].
    + cbn. by rewrite bool_decide_eq_true_2.
    + cbn. rewrite bool_decide_eq_false_2.
      * apply IH. intros p Hp. apply Hfresh. by right.
      * apply Hfresh. by left.
  - unfold distinctProjectIds. cbn [projects]. intros Hdistinct.
    rewrite fmap_app. apply NoDup_app. split; [done|]. split.
    + intros a Ha Hnew. apply list_elem_of_singleton in Hnew as ->.
      apply list_elem_of_fmap in Ha as (project & Heq & Hin).
      by apply (Hfresh project Hin).
    + apply NoDup_singleton.
Qed.

Lemma add_project_becomes_active_witness :
  ∃ state' newProject,
    boardReducer Sample.world Sample.oneLane (ADD_PROJECT "Second" None)
    = Returns state'
    ∧ getActiveProject state' = Some newProject
    ∧ Project.id newProject = "g0".
Proof.
  destruct (add_project_becomes_active Sample.world Sample.oneLane
              "Second" None)
    as (state' & newProject & Hrun & Hprojects & Hactive & _).
  - discriminate.
  - intros project Hin. apply list_elem_of_singleton in Hin as ->.
    discriminate.
  - exists state', newProject. split; [exact Hrun|]. split; [exact Hactive|].
    injection Hrun as <-. injection Hprojects as <-. reflexivity.
Defined.

(** ** The read helpers of the facade *)

(** [canUndoCard] against UNDO_CARD.  Whenever it answers [false], UNDO_CARD
    returns the state it was given, with or without an active project.  With
    an active project, and for an id that is no property of
    [Object.prototype] or under which a history is recorded, it answers
    [true] precisely when UNDO_CARD changes the state.  For the name of an
    inherited function with parameters (such as [constructor]) under which
    no history is recorded, it answers [true] although UNDO_CARD returns the
    state it was given. *)
Theorem canUndoCard_exact w state cardId :
  (canUndoCard state cardId = false →
   boardReducer w state (UNDO_CARD cardId) = Returns state)
  ∧ (∀ activeProject,
       getActiveProject state = Some activeProject →
       inherited cardId = None ∨ is_Some (cardVersions state !! cardId) →
       (canUndoCard state cardId = true
        ↔ boardReducer w state (UNDO_CARD cardId) ≠ Returns state))
  ∧ (∀ n,
       inherited cardId = Some (functionOf (S n)) →
       cardVersions state !! cardId = None →
       canUndoCard state cardId = true
       ∧ boardReducer w state (UNDO_CARD cardId) = Returns state).
Proof.
  assert (Hfalse : canUndoCard state cardId = false →
                   boardReducer w state (UNDO_CARD cardId) = Returns state).
  { unfold canUndoCard, boardReducer.
    destruct (cardVersions state !! cardId) as [[|v vs]|]; [done| |done].
    intros Hcan. apply bool_decide_eq_false in Hcan. cbn in Hcan. lia. }
  split; [exact Hfalse|]. split.
  - intros activeProject Hactive Hplain. split.
    + intros Hcan Hsame. unfold canUndoCard in Hcan.
      destruct (cardVersions state !! cardId) as [versions|] eqn:Hversions.
      * apply bool_decide_eq_true in Hcan.
        destruct (exists_last (l := versions)) as (earlier & v & ->);
          [intros ->; cbn in Hcan; lia|].
        destruct (undo_step w state activeProject cardId earlier v
                    Hactive Hversions)
          as (state' & Hrun & _ & _ & Hpopped).
        rewrite Hrun in Hsame. injection Hsame as ->.
        rewrite Hversions in Hpopped. injection Hpopped as Hpopped.
        apply (f_equal length) in Hpopped. rewrite length_app in Hpopped.
        cbn in Hpopped. lia.
      * destruct Hplain as [Hplain|[versions [=]]].
        by rewrite Hplain in Hcan.
    + intros Hchanged. destruct (canUndoCard state cardId) eqn:Hcan; [done|].
      by destruct Hchanged; apply Hfalse.
  - intros n Hfound Hversions. unfold canUndoCard, boardReducer.
    rewrite Hversions, Hfound. split; [|done].
    apply bool_decide_eq_true. lia.
Qed.

Lemma canUndoCard_exact_witness :
  (canUndoCard Scenario.twoProjects "c1" = true
   ∧ boardReducer Sample.world Scenario.twoProjects (UNDO_CARD "c1")
     ≠ Returns Scenario.twoProjects)
  ∧ (canUndoCard Scenario.twoProjects "constructor" = true
     ∧ boardReducer Sample.world Scenario.twoProjects (UNDO_CARD "constructor")
       = Returns Scenario.twoProjects)
  ∧ (canUndoCard Scenario.twoProjects "c2" = false
     ∧ boardReducer Sample.world Scenario.twoProjects (UNDO_CARD "c2")
       = Returns Scenario.twoProjects).
Proof.
  destruct (canUndoCard_exact Sample.world Scenario.twoProjects "c1")
    as (_ & Hexact & _).
  destruct (canUndoCard_exact Sample.world Scenario.twoProjects "constructor")
    as (_ & _ & Hinherited).
  destruct (canUndoCard_exact Sample.world Scenario.twoProjects "c2")
    as (Hfalse & _).
  split; [|split].
  - split; [reflexivity|].
    apply (Hexact (Sample.project "p2" [Lane.mk "later" "Later" 0 ["c2"]])
                  eq_refl); [by left|reflexivity].
  - apply (Hinherited 0%nat); reflexivity.
  - split; [reflexivity|]. apply Hfalse. reflexivity.
Defined.

(** [getCardsByLane] returns exactly the cards that are stored under an id
    listed by the lane [laneId] of the facade's active project, are not
    deleted and belong to that project; in particular it returns nothing for
    an unknown lane or without an active project, and never a deleted card or
    an id without a card. *)
Theorem getCardsByLane_exact state laneId card :
  card ∈ getCardsByLane state laneId
  ↔ ∃ activeProject lane cardId,
      facadeActiveProject state = Some activeProject
      ∧ find (λ l, bool_decide (Lane.id l = laneId))
             (Project.lanes activeProject) = Some lane
      ∧ cardId ∈ Lane.cardIds lane
      ∧ cards state !! cardId = Some card
      ∧ Card.isDeleted card = false
      ∧ Card.projectId card = Project.id activeProject.
Proof.
  unfold getCardsByLane.
  destruct (facadeActiveProject state) as [activeProject|].
  2:{ split; [by intros ?%elem_of_nil|]. by intros (? & ? & ? & [=] & _). }
  destruct (find _ (Project.lanes activeProject)) as [lane|] eqn:Hfind.
  2:{ split; [by intros ?%elem_of_nil|].
      intros (? & ? & ? & [= <-] & Hlane & _). by rewrite Hfind in Hlane. }
  rewrite list_elem_of_omap. split.
  - intros (entry & Hentry & Hshown).
    apply list_elem_of_fmap in Hentry as (cardId & -> & Hin).
    unfold shownCard in Hshown.
    destruct (cards state !! cardId) as [stored|] eqn:Hstored; [|done].
    destruct (negb (Card.isDeleted stored) && _) eqn:Hguard; [|done].
    injection Hshown as ->.
    apply andb_true_iff in Hguard as [Hlive Hown].
    apply negb_true_iff in Hlive. apply bool_decide_eq_true in Hown.
    exists activeProject, lane, cardId. by rewrite Hstored.
  - intros (? & ? & cardId & [= <-] & Hlane & Hin & Hstored & Hlive & Hown).
    rewrite Hfind in Hlane. injection Hlane as <-.
    exists (Some card). split.
    + apply list_elem_of_fmap. exists cardId. by rewrite Hstored.
    + unfold shownCard. rewrite Hlive, bool_decide_eq_true_2 by done. done.
Qed.

(** The order of [getCardsByLane] is the order of the lane's [cardIds]: when
    every listed id is shown, the ids of the lane read off in order are
    stored under exactly the returned cards. *)
Theorem getCardsByLane_in_order state activeProject laneId lane :
  facadeActiveProject state = Some activeProject →
  find (λ l, bool_decide (Lane.id l = laneId)) (Project.lanes activeProject)
  = Some lane →
  (∀ cardId, cardId ∈ Lane.cardIds lane →
             ∃ card, cards state !! cardId = Some card
                     ∧ Card.isDeleted card = false
                     ∧ Card.projectId card = Project.id activeProject) →
  Some <$> getCardsByLane state laneId
  = (λ cardId, cards state !! cardId) <$> Lane.cardIds lane.
Proof.
  intros Hactive Hlane Hall. unfold getCardsByLane. rewrite Hactive, Hlane.
  induction (Lane.cardIds lane) as [|cardId cardIds IH]; [done|].
  destruct (Hall cardId) as (card & Hstored & Hlive & Hown); [by left|].
  cbn. rewrite Hstored. cbn. rewrite Hlive, bool_decide_eq_true_2 by done.
  cbn. f_equal. apply IH. intros other Hin. apply Hall. by right.
Qed.

Lemma getCardsByLane_in_order_witness :
  Card.id <$> getCardsByLane Sample.twoLanes "A" = ["c1"; "c2"].
Proof.
  pose proof (getCardsByLane_in_order Sample.twoLanes
                (Sample.project "p1" [Lane.mk "A" "Todo" 0 ["c1"; "c2"];
                                      Lane.mk "B" "Done" 1 ["c3"]])
                "A" (Lane.mk "A" "Todo" 0 ["c1"; "c2"]) eq_refl eq_refl)
    as Horder.
  assert (Hshown : Some <$> getCardsByLane Sample.twoLanes "A"
                   = [Some (Sample.card "c1" "p1" "A");
                      Some (Sample.card "c2" "p1" "A")]).
  { rewrite Horder; [reflexivity|].
    intros cardId [->|Hin]%elem_of_cons.
    - by eexists.
    - apply list_elem_of_singleton in Hin as ->. by eexists. }
  clear Horder.
  destruct (getCardsByLane Sample.twoLanes "A") as [|a [|b [|]]];
    cbn in Hshown; simplify_eq. reflexivity.
Defined.

Lemma getCardsByLane_exact_witness :
  Sample.card "c3" "p1" "B" ∈ getCardsByLane Sample.twoLanes "B".
Proof.
  apply (proj2 (getCardsByLane_exact Sample.twoLanes "B"
                  (Sample.card "c3" "p1" "B"))).
  exists (Sample.project "p1" [Lane.mk "A" "Todo" 0 ["c1"; "c2"];
                               Lane.mk "B" "Done" 1 ["c3"]]),
         (Lane.mk "B" "Done" 1 ["c3"]), "c3".
  repeat split; try reflexivity. apply list_elem_of_here.
Defined.

(** ** Positions: [splice], MOVE_CARD and the drag handlers *)

Lemma splice_insert_Permutation xs start x :
  splice_insert xs start x ≡ₚ x :: xs.
Proof.
  unfold splice_insert. set (n := Z.to_nat _).
  rewrite <- Permutation_middle. by rewrite take_drop.
Qed.

Lemma splice_insert_at xs start x :
  0 ≤ start ≤ Z.of_nat (length xs) →
  splice_insert xs start x !! Z.to_nat start = Some x.
Proof.
  intros Hrange. unfold splice_insert.
  rewrite (proj2 (Z.ltb_ge start 0)) by lia.
  rewrite Z.min_l by lia.
  apply list_lookup_middle. rewrite length_take. lia.
Qed.








Lemma find_ext {A} (P Q : A → bool) (xs : list A) :
  (∀ x, P x = Q x) → find P xs = find Q xs.
Proof.
  intros Hext. induction xs as [|x xs IH]; [done|].
  cbn. by rewrite Hext, IH.
Qed.

Lemma find_none_all {A} (P : A → bool) (xs : list A) :
  (∀ x, P x = false) → find P xs = None.
Proof.
  intros Hnone. induction xs as [|x xs IH]; [done|]. cbn. by rewrite Hnone.
Qed.

(** The two lookups of the active project agree unless [activeProjectId] is
    the empty string. *)
Lemma getActiveProject_facade state :
  activeProjectId state ≠ Some "" →
  getActiveProject state = facadeActiveProject state.
Proof.
  unfold getActiveProject, facadeActiveProject. intros Hnonempty.
  destruct (activeProjectId state) as [aid|].
  - rewrite bool_decide_eq_false_2 by congruence.
    apply find_ext. intros project. apply bool_decide_ext.
    split; congruence.
  - symmetry. apply find_none_all. intros project.
    by apply bool_decide_eq_false.
Qed.

Lemma findLane_some activeProject id lane :
  findLane activeProject id = Some lane →
  ∃ project i,
    activeProject = Some project
    ∧ Project.lanes project !! i = Some lane
    ∧ Lane.id lane = id.
Proof.
  unfold findLane. destruct activeProject as [project|]; [|done].
  intros Hfind. apply find_some in Hfind as [Hin Hid].
  apply bool_decide_eq_true in Hid.
  apply list_elem_of_In, list_elem_of_lookup in Hin as [i Hi]. eauto.
Qed.



Lemma indexOf_listed (xs : list string) x :
  x ∈ xs →
  ∃ i, indexOf xs x = Z.of_nat i ∧ xs !! i = Some x.
Proof.
  intros Hin. unfold indexOf.
  destruct (list_find_elem_of (λ y, y = x) xs x Hin eq_refl)
    as [[i y] Hfind].
  rewrite Hfind. apply list_find_Some in Hfind as (Hi & -> & _). eauto.
Qed.

Lemma indexOf_unlisted (xs : list string) x :
  x ∉ xs → indexOf xs x = -1.
Proof.
  intros Hnot. unfold indexOf.
  destruct (list_find (λ y, y = x) xs) as [[i y]|] eqn:Hfind; [|done].
  apply list_find_Some in Hfind as (Hi & -> & _).
  destruct Hnot. by eapply list_elem_of_lookup_2.
Qed.

Lemma splice_remove_listed (xs : list string) i x :
  xs !! i = Some x →
  splice_remove xs (Z.of_nat i) = delete i xs.
Proof.
  intros Hi. apply lookup_lt_Some in Hi. unfold splice_remove.
  rewrite (proj2 (Z.ltb_ge (Z.of_nat i) 0)) by lia.
  rewrite Z.min_l, Nat2Z.id by lia. by rewrite delete_take_drop.
Qed.

Lemma splice_remove_last (xs : list string) :
  splice_remove xs (-1) = take (length xs - 1) xs.
Proof.
  unfold splice_remove. cbn [Z.ltb Z.compare].
  destruct xs as [|x xs]; [done|].
  rewrite Z.max_l by (cbn [length]; lia).
  replace (Z.to_nat (Z.of_nat (length (x :: xs)) + -1))
    with (length (x :: xs) - 1)%nat by (cbn [length]; lia).
  rewrite (drop_ge _ (S _)) by (cbn [length]; lia).
  by rewrite app_nil_r.
Qed.

(** Moving a listed element to the position of another listed element is a
    rearrangement, and the element ends where the other one stood. *)
Lemma move_within (xs : list string) a b :
  a ∈ xs → b ∈ xs →
  ∃ j,
    indexOf xs b = Z.of_nat j
    ∧ xs !! j = Some b
    ∧ splice_insert (splice_remove xs (indexOf xs a)) (indexOf xs b) a ≡ₚ xs
    ∧ splice_insert (splice_remove xs (indexOf xs a)) (indexOf xs b) a !! j
      = Some a.
Proof.
  intros Ha Hb.
  destruct (indexOf_listed xs a Ha) as (i & -> & Hi).
  destruct (indexOf_listed xs b Hb) as (j & -> & Hj).
  exists j. split; [done|]. split; [done|].
  rewrite (splice_remove_listed xs i a Hi).
  split.
  - rewrite splice_insert_Permutation. symmetry. by apply delete_Permutation.
  - pose proof (splice_insert_at (delete i xs) (Z.of_nat j) a) as Hat.
    rewrite Nat2Z.id in Hat. apply Hat.
    apply lookup_lt_Some in Hj. rewrite length_delete by eauto. lia.
Qed.

Lemma NoDup_fmap_same {A B} (f : A → B) (xs : list A) x y :
  NoDup (f <$> xs) → x ∈ xs → y ∈ xs → f x = f y → x = y.
Proof.
  induction xs as [|z xs IH]; intros Hnodup Hx Hy Heq;
    [by apply elem_of_nil in Hx|].
  rewrite fmap_cons in Hnodup. apply NoDup_cons in Hnodup as [Hfresh Hnodup].
  apply elem_of_cons in Hx as [->|Hx]; apply elem_of_cons in Hy as [->|Hy].
  - done.
  - destruct Hfresh. rewrite Heq. apply list_elem_of_fmap. eauto.
  - destruct Hfresh. rewrite <- Heq. apply list_elem_of_fmap. eauto.
  - by apply IH.
Qed.

Lemma laneMapOf_lookup (lanes : list Lane.t) id lane :
  laneMapOf lanes !! id = Some lane → lane ∈ lanes ∧ Lane.id lane = id.
Proof.
  unfold laneMapOf.
  assert (Hgen : ∀ m : gmap string Lane.t,
            foldl (λ m l, <[Lane.id l := l]> m) m lanes !! id = Some lane →
            (lane ∈ lanes ∧ Lane.id lane = id) ∨ m !! id = Some lane).
  { induction lanes as [|l lanes IH]; intros m Hlookup; [by right|].
    cbn in Hlookup. destruct (IH _ Hlookup) as [[Hin Hid]|Hm].
    - left. split; [by right|done].
    - apply lookup_insert_Some in Hm as [[Hid <-]|[_ Hm]]; [|by right].
      left. split; [by left|done]. }
  intros Hlookup. destruct (Hgen ∅ Hlookup) as [|Hempty]; [done|].
  by rewrite lookup_empty in Hempty.
Qed.

Lemma laneMapOf_is_Some (lanes : list Lane.t) id :
  id ∈ Lane.id <$> lanes → is_Some (laneMapOf lanes !! id).
Proof.
  unfold laneMapOf.
  assert (Hgen : ∀ m : gmap string Lane.t,
            id ∈ Lane.id <$> lanes ∨ is_Some (m !! id) →
            is_Some (foldl (λ m l, <[Lane.id l := l]> m) m lanes !! id)).
  { induction lanes as [|l lanes IH]; intros m Hcase.
    - destruct Hcase as [Hin|Hm]; [by apply elem_of_nil in Hin|done].
    - cbn. apply IH. rewrite fmap_cons, elem_of_cons in Hcase.
      destruct (decide (Lane.id l = id)) as [<-|Hne].
      + right. rewrite lookup_insert_eq. by eexists.
      + destruct Hcase as [[Heq|Hin]|Hm]; [congruence|by left|].
        right. by rewrite lookup_insert_ne. }
  intros Hin. apply Hgen. by left.
Qed.

Lemma reordered_all_found (m : gmap string Lane.t) (laneIds : list string) :
  ∀ k,
    Forall (λ id, ∃ lane, m !! id = Some lane ∧ Lane.id lane = id) laneIds →
    Lane.id <$> omap (λ lane, lane)
                  (imap (λ index id,
                           Lane.with_order (Z.of_nat (k + index)) <$> m !! id)
                        laneIds)
    = laneIds
    ∧ Lane.order <$> omap (λ lane, lane)
                       (imap (λ index id,
                                Lane.with_order (Z.of_nat (k + index))
                                  <$> m !! id)
                             laneIds)
      = Z.of_nat <$> seq k (length laneIds).
Proof.
  induction laneIds as [|id laneIds IH]; intros k Hall; [done|].
  apply Forall_cons in Hall as [(lane & Hlane & Hid) Hall].
  rewrite imap_cons.
  rewrite (imap_ext _ (λ index id,
                         Lane.with_order (Z.of_nat (S k + index)) <$> m !! id))
    by (intros i x _; cbn; by rewrite Nat.add_succ_r).
  destruct (IH (S k) Hall) as [IHids IHorders].
  cbn [omap list_omap]. rewrite Hlane. cbn [fmap option_fmap option_map].
  rewrite !fmap_cons. change (list_omap ?f ?l) with (omap f l).
  rewrite IHids, IHorders. cbn [Lane.id Lane.order Lane.with_order length seq].
  by rewrite Hid, Nat.add_0_r.
Qed.

(** REORDER_LANES never invents a lane: every lane of the result is a lane
    of the project, renumbered with the position at which its id was
    supplied; a lane whose id is not supplied is dropped.  When every
    supplied id names a lane, the lanes of the result carry exactly the
    supplied ids, in that order, numbered 0, 1, ..., n-1.  Cards are not
    touched. *)
Theorem reorder_lanes_result w state activeProject laneIds :
  getActiveProject state = Some activeProject →
  ∃ state' activeProject',
    boardReducer w state (REORDER_LANES laneIds) = Returns state'
    ∧ getActiveProject state' = Some activeProject'
    ∧ (∀ lane', lane' ∈ Project.lanes activeProject' →
         ∃ index lane,
           laneIds !! index = Some (Lane.id lane')
           ∧ lane ∈ Project.lanes activeProject
           ∧ lane' = Lane.with_order (Z.of_nat index) lane)
    ∧ (Forall (λ id, id ∈ Lane.id <$> Project.lanes activeProject) laneIds →
       Lane.id <$> Project.lanes activeProject' = laneIds
       ∧ Lane.order <$> Project.lanes activeProject'
         = Z.of_nat <$> seq 0 (length laneIds))
    ∧ cards state' = cards state.
Proof.
  intros Hactive. unfold boardReducer. cbv zeta. rewrite Hactive.
  lazymatch goal with
  | |- context [mapActiveProject state ?u] =>
      destruct (mapActiveProject_some state activeProject u Hactive)
        as [ps Hps];
      pose proof (getActiveProject_mapped state activeProject u ps
                    (cards state) (cardVersions state) (isLoading state)
                    (error state) Hactive eq_refl Hps) as Hstill
  end.
  rewrite Hps. cbn [from_option Datatypes.id].
  do 2 eexists. split; [reflexivity|]. split; [exact Hstill|].
  cbn [Project.lanes Project.with_lanes cards].
  split; [|split; [|done]].
  - intros lane' Hin.
    apply list_elem_of_omap in Hin as (entry & Hentry & ->).
    apply elem_of_lookup_imap in Hentry as (index & id & Hentry & Hindex).
    destruct (laneMapOf (Project.lanes activeProject) !! id) as [lane|]
      eqn:Hlane; [|done].
    apply laneMapOf_lookup in Hlane as [Hlane Hid].
    injection Hentry as ->. exists index, lane. cbn. by rewrite Hid.
  - intros Hall.
    apply (reordered_all_found (laneMapOf (Project.lanes activeProject))
             laneIds 0%nat).
    eapply Forall_impl; [exact Hall|]. intros id Hid. cbn beta in Hid.
    destruct (laneMapOf_is_Some _ _ Hid) as [lane Hlane].
    exists lane. split; [done|]. by apply laneMapOf_lookup in Hlane as [_ ?].
Qed.

Lemma reorder_lanes_result_witness :
  ∃ state' activeProject',
    boardReducer Sample.world Sample.twoLanes (REORDER_LANES ["B"; "A"])
    = Returns state'
    ∧ getActiveProject state' = Some activeProject'
    ∧ Lane.id <$> Project.lanes activeProject' = ["B"; "A"]
    ∧ Lane.order <$> Project.lanes activeProject' = [0; 1].
Proof.
  destruct (reorder_lanes_result Sample.world Sample.twoLanes
              (Sample.project "p1" [Lane.mk "A" "Todo" 0 ["c1"; "c2"];
                                    Lane.mk "B" "Done" 1 ["c3"]])
              ["B"; "A"] eq_refl)
    as (state' & activeProject' & Hrun & Hactive & _ & Hall & _).
  exists state', activeProject'. split; [exact Hrun|]. split; [exact Hactive|].
  apply Hall. repeat constructor.
Defined.

Lemma findLane_listed activeProject id lane :
  findLane activeProject id = Some lane →
  ∃ project,
    activeProject = Some project
    ∧ lane ∈ Project.lanes project
    ∧ Lane.id lane = id
    ∧ id ∈ Lane.id <$> Project.lanes project.
Proof.
  intros Hfind.
  apply findLane_some in Hfind as (project & i & -> & Hi & Hid).
  exists project. split; [done|].
  assert (lane ∈ Project.lanes project) by by eapply list_elem_of_lookup_2.
  repeat split; [done..|]. apply list_elem_of_fmap. eauto.
Qed.

(** What REORDER_LANES returns when there is an active project. *)
Lemma reorder_lanes_run w state activeProject laneIds :
  getActiveProject state = Some activeProject →
  ∃ state',
    boardReducer w state (REORDER_LANES laneIds) = Returns state'
    ∧ getActiveProject state'
      = Some (Project.with_lanes
                (omap (λ lane, lane)
                   (imap (λ index id,
                            Lane.with_order (Z.of_nat index)
                              <$> laneMapOf (Project.lanes activeProject) !! id)
                         laneIds))
                (clock w 0) activeProject).
Proof.
  intros Hactive. unfold boardReducer. cbv zeta. rewrite Hactive.
  lazymatch goal with
  | |- context [mapActiveProject state ?u] =>
      destruct (mapActiveProject_some state activeProject u Hactive)
        as [ps Hps];
      pose proof (getActiveProject_mapped state activeProject u ps
                    (cards state) (cardVersions state) (isLoading state)
                    (error state) Hactive eq_refl Hps) as Hstill
  end.
  rewrite Hps. cbn [from_option Datatypes.id].
  eexists. split; [reflexivity|exact Hstill].
Qed.

(** Dropping a lane on another lane.  Whenever [handleDragEnd] dispatches
    REORDER_LANES, the ids it supplies are a rearrangement of the ids of the
    lanes of the active project, and the dragged lane stands where the lane
    it was dropped on stood.  When the lanes have distinct ids (and
    [activeProjectId] is not the empty string, so that the reducer finds the
    project), the reducer then drops no lane: the lanes of the result carry
    the supplied ids in that order, and every lane of the project is among
    them, with nothing but its [order] changed. *)
Theorem drag_end_rearranges_lanes w state activeId over newLaneIds :
  handleDragEnd state activeId over = Some (REORDER_LANES newLaneIds) →
  ∃ activeProject overId j,
    over = Some overId
    ∧ facadeActiveProject state = Some activeProject
    ∧ activeId ≠ overId
    ∧ newLaneIds ≡ₚ Lane.id <$> Project.lanes activeProject
    ∧ (Lane.id <$> Project.lanes activeProject) !! j = Some overId
    ∧ newLaneIds !! j = Some activeId
    ∧ (activeProjectId state ≠ Some "" →
       NoDup (Lane.id <$> Project.lanes activeProject) →
       ∃ state' activeProject',
         boardReducer w state (REORDER_LANES newLaneIds) = Returns state'
         ∧ getActiveProject state' = Some activeProject'
         ∧ Lane.id <$> Project.lanes activeProject' = newLaneIds
         ∧ ∀ lane, lane ∈ Project.lanes activeProject →
                   ∃ index,
                     newLaneIds !! index = Some (Lane.id lane)
                     ∧ Lane.with_order (Z.of_nat index) lane
                       ∈ Project.lanes activeProject').
Proof.
  unfold handleDragEnd. destruct over as [overId|]; [|done]. cbv zeta.
  destruct (bool_decide (is_Some (findLane _ activeId)) && _ && _) eqn:Hguard.
  - intros [= <-].
    apply andb_true_iff in Hguard as [Hguard Hdiff].
    apply andb_true_iff in Hguard as [Hfrom Hto].
    apply bool_decide_eq_true in Hfrom as [activeLane Hfrom].
    apply bool_decide_eq_true in Hto as [overLane Hto].
    apply bool_decide_eq_true in Hdiff.
    apply findLane_listed in Hfrom as (activeProject & Hactive & _ & _ & Ha).
    apply findLane_listed in Hto as (? & Hactive' & _ & _ & Hb).
    rewrite Hactive in Hactive' |- *. injection Hactive' as <-.
    destruct (move_within _ _ _ Ha Hb) as (j & _ & Hj & Hperm & Hat).
    exists activeProject, overId, j.
    do 6 (split; [done|]).
    intros Hnonempty Hdistinct.
    rewrite <- (getActiveProject_facade state Hnonempty) in Hactive.
    set (newLaneIds := splice_insert _ _ _) in *.
    destruct (reorder_lanes_run w state activeProject newLaneIds Hactive)
      as (state' & Hrun & Hstill).
    eexists state', _. split; [exact Hrun|]. split; [exact Hstill|].
    cbn [Project.lanes Project.with_lanes].
    assert (Hnamed : ∀ id, id ∈ newLaneIds →
              ∃ lane, laneMapOf (Project.lanes activeProject) !! id = Some lane
                      ∧ Lane.id lane = id).
    { intros id Hid. rewrite Hperm in Hid.
      destruct (laneMapOf_is_Some _ _ Hid) as [lane Hlane].
      exists lane. split; [done|]. by apply laneMapOf_lookup in Hlane as [_ ?]. }
    split.
    + apply (reordered_all_found (laneMapOf (Project.lanes activeProject))
               newLaneIds 0%nat).
      apply Forall_forall. intros id Hid. by apply Hnamed.
    + intros lane Hlane.
      assert (Hid : Lane.id lane ∈ newLaneIds).
      { rewrite Hperm. apply list_elem_of_fmap. eauto. }
      pose proof Hid as Hat'.
      apply list_elem_of_lookup in Hat' as [index Hindex].
      exists index. split; [done|].
      destruct (Hnamed _ Hid) as (found & Hfound & Hsame).
      pose proof Hfound as Hmember.
      apply laneMapOf_lookup in Hmember as [Hmember _].
      assert (found = lane) as ->
        by (by apply (NoDup_fmap_same Lane.id (Project.lanes activeProject))).
      apply list_elem_of_omap. exists (Some (Lane.with_order (Z.of_nat index) lane)).
      split; [|done].
      apply elem_of_lookup_imap. exists index, (Lane.id lane).
      split; [|done]. by rewrite Hfound.
  - intros Hcards. repeat case_match; simplify_eq.
Qed.

Lemma drag_end_rearranges_lanes_witness :
  handleDragEnd Scenario.threeLanes "C" (Some "A")
  = Some (REORDER_LANES ["C"; "A"; "B"])
  ∧ ["C"; "A"; "B"] ≡ₚ ["A"; "B"; "C"]
  ∧ ∃ state' activeProject',
      boardReducer Sample.world Scenario.threeLanes
                   (REORDER_LANES ["C"; "A"; "B"]) = Returns state'
      ∧ getActiveProject state' = Some activeProject'
      ∧ Lane.id <$> Project.lanes activeProject' = ["C"; "A"; "B"].
Proof.
  split; [reflexivity|].
  destruct (drag_end_rearranges_lanes Sample.world Scenario.threeLanes "C"
              (Some "A") ["C"; "A"; "B"] eq_refl)
    as (activeProject & overId & j & _ & Hactive & _ & Hperm & _ & _ & Hkept).
  injection Hactive as <-. split; [exact Hperm|].
  destruct Hkept as (state' & activeProject' & Hrun & Hstill & Hids & _).
  - discriminate.
  - cbn. repeat (apply NoDup_cons; split;
                 [rewrite ?elem_of_cons, elem_of_nil;
                  intros Hin; repeat destruct Hin as [Hin|Hin]; done|]).
    apply NoDup_nil_2.
  - by exists state', activeProject'.
Defined.

(** Dropping a card on a card of the same lane.  Whenever [handleDragEnd]
    dispatches REORDER_CARDS, it names the lane of the dragged card in the
    active project.  If that lane lists both cards, the ids supplied are a
    rearrangement of the lane's ids with the dragged card where the other
    card stood.  If the lane does not list the dragged card, [indexOf]
    yields -1 and [splice(-1, 1)] removes the last id of the lane: the ids
    supplied are the dragged card together with the lane's ids without the
    last one. *)
Theorem drag_end_rearranges_cards state activeId over laneId cardIds :
  handleDragEnd state activeId over = Some (REORDER_CARDS laneId cardIds) →
  ∃ activeProject activeCard overId lane,
    over = Some overId
    ∧ facadeActiveProject state = Some activeProject
    ∧ cards state !! activeId = Some activeCard
    ∧ lane ∈ Project.lanes activeProject
    ∧ Lane.id lane = Card.laneId activeCard
    ∧ laneId = Lane.id lane
    ∧ (activeId ∈ Lane.cardIds lane → overId ∈ Lane.cardIds lane →
       cardIds ≡ₚ Lane.cardIds lane
       ∧ ∃ j, Lane.cardIds lane !! j = Some overId
              ∧ cardIds !! j = Some activeId)
    ∧ (activeId ∉ Lane.cardIds lane →
       cardIds
       ≡ₚ activeId
          :: take (length (Lane.cardIds lane) - 1) (Lane.cardIds lane)).
Proof.
  unfold handleDragEnd. destruct over as [overId|]; [|done]. cbv zeta.
  destruct (bool_decide (is_Some (findLane _ activeId)) && _ && _); [done|].
  destruct (cards state !! activeId) as [activeCard|] eqn:Hcard; [|done].
  destruct (cards state !! overId) as [overCard|]; [|done].
  destruct (_ && _); [|done].
  destruct (findLane _ (Card.laneId activeCard)) as [lane|] eqn:Hlane; [|done].
  intros [= <- <-].
  apply findLane_listed in Hlane as (activeProject & Hactive & Hin & Hid & _).
  exists activeProject, activeCard, overId, lane.
  do 6 (split; [done|]). split.
  - intros Ha Hb.
    destruct (move_within _ _ _ Ha Hb) as (j & _ & Hj & Hperm & Hat). eauto.
  - intros Hunlisted. rewrite (indexOf_unlisted _ _ Hunlisted).
    rewrite splice_remove_last. apply splice_insert_Permutation.
Qed.

Lemma drag_end_rearranges_cards_witness :
  handleDragEnd Scenario.threeLanes "c3" (Some "c1")
  = Some (REORDER_CARDS "A" ["c3"; "c1"; "c2"])
  ∧ ["c3"; "c1"; "c2"] ≡ₚ ["c1"; "c2"; "c3"].
Proof.
  split; [reflexivity|].
  destruct (drag_end_rearranges_cards Scenario.threeLanes "c3" (Some "c1")
              "A" ["c3"; "c1"; "c2"] eq_refl)
    as (activeProject & activeCard & overId & lane & Hover & Hactive & _
        & Hin & Hid & Hlane & Hlisted & _).
  injection Hover as <-. injection Hactive as <-.
  apply elem_of_cons in Hin as [->|Hin].
  - apply Hlisted.
    + do 2 apply list_elem_of_further. apply list_elem_of_here.
    + apply list_elem_of_here.
  - apply elem_of_cons in Hin as [->|Hin]; [discriminate Hlane|].
    apply list_elem_of_singleton in Hin as ->. discriminate Hlane.
Defined.

(** A rewriting of the lanes of the active project that keeps ids and
    membership, with the cards untouched, keeps I1. *)
Lemma I1_lanes_only state activeProject (g : Lane.t → Lane.t) now ps' vs'
    loading' err' :
  distinctProjectIds state →
  I1 state →
  getActiveProject state = Some activeProject →
  mapActiveProject state
    (Project.with_lanes (g <$> Project.lanes activeProject) now) = Some ps' →
  (∀ k lane, lane ∈ Project.lanes activeProject →
             Lane.id (g lane) = Lane.id lane
             ∧ (k ∈ Lane.cardIds (g lane) ↔ k ∈ Lane.cardIds lane)) →
  I1 (mkState ps' (activeProjectId state) (cards state) vs' loading' err').
Proof.
  intros Hdistinct Hinv Hactive Hps Hg k card Hcard Hlive.
  cbn [cards] in Hcard.
  destruct (active_project_split state activeProject Hdistinct Hactive)
    as (before & after & Hsplit & Hothers).
  rewrite (mapActiveProject_split _ _ _ _ _ Hactive Hsplit Hothers) in Hps.
  injection Hps as <-.
  erewrite lanesHolding_split by reflexivity.
  rewrite heldIn_same by (intros lane Hin; by apply Hg).
  rewrite <- (Hinv k card Hcard Hlive).
  by rewrite (lanesHolding_state_split state before after activeProject k).
Qed.

(** REORDER_CARDS keeps I1 when the projects have distinct ids and the ids
    supplied are, as a set, the ids that each lane named by the action
    lists: a rearrangement, as [handleDragEnd] supplies for a listed card,
    qualifies. *)
Theorem reorder_cards_keeps_I1 w state laneId cardIds state' :
  distinctProjectIds state →
  I1 state →
  (∀ activeProject lane,
     getActiveProject state = Some activeProject →
     lane ∈ Project.lanes activeProject →
     Lane.id lane = laneId →
     ∀ k, k ∈ cardIds ↔ k ∈ Lane.cardIds lane) →
  boardReducer w state (REORDER_CARDS laneId cardIds) = Returns state' →
  I1 state'.
Proof.
  intros Hdistinct Hinv Hsame Hrun.
  unfold boardReducer in Hrun. cbv zeta in Hrun.
  destruct (getActiveProject state) as [activeProject|] eqn:Hactive;
    [|by simplify_eq].
  lazymatch type of Hrun with
  | context [mapActiveProject state ?u] =>
      destruct (mapActiveProject_some state activeProject u Hactive)
        as [ps Hps]
  end.
  rewrite Hps in Hrun. injection Hrun as <-. cbn [from_option Datatypes.id].
  eapply I1_lanes_only; [done|done|done|exact Hps|].
  intros k lane Hin. clear Hps. cbv beta.
  case_bool_decide as Hid; [|done]. split; [done|]. cbn.
  by apply (Hsame activeProject lane).
Qed.

Lemma reorder_cards_keeps_I1_witness :
  ∃ state',
    boardReducer Sample.world Sample.twoLanes (REORDER_CARDS "A" ["c2"; "c1"])
    = Returns state'
    ∧ I1 state'.
Proof.
  eexists. split; [reflexivity|].
  eapply (reorder_cards_keeps_I1 Sample.world Sample.twoLanes "A" ["c2"; "c1"]);
    [apply NoDup_singleton|exact I1_twoLanes| |reflexivity].
  intros activeProject lane [= <-] Hin Hid k.
  apply elem_of_cons in Hin as [->|Hin].
  - cbn [Lane.cardIds]. rewrite !elem_of_cons, !elem_of_nil. tauto.
  - apply list_elem_of_singleton in Hin as ->. discriminate Hid.
Defined.

(** * Further properties of the normaliser *)

(** Whatever blob it is given, [normalizeState] returns a state that
    satisfies I5, and whose [activeProjectId] is [null] only when there is no
    project. *)
Theorem normalizeState_establishes_I5 w (x : RawState) :
  I5 (normalizeState w x)
  ∧ (activeProjectId (normalizeState w x) = None
     ↔ projects (normalizeState w x) = []).
Proof.
  destruct x as [raw|raw].
  - unfold normalizeState.
    set (ps := _ <$> Persisted.projects raw).
    set (candidate := nullish (Persisted.activeProjectId raw)
                              (Project.id <$> head ps)).
    cbn [activeProjectId projects]. split.
    + intros a Ha. cbn [activeProjectId projects] in Ha |- *.
      destruct (existsb _ ps) eqn:Hsome.
      * apply existsb_exists in Hsome as (project & Hin & Hid).
        apply bool_decide_eq_true in Hid. rewrite Ha in Hid.
        injection Hid as Hid. exists project.
        split; [by apply list_elem_of_In|done].
      * destruct ps as [|first rest]; [done|]. injection Ha as <-.
        exists first. split; [apply list_elem_of_here|done].
    + destruct (existsb _ ps) eqn:Hsome.
      * apply existsb_exists in Hsome as (project & Hin & Hid).
        apply bool_decide_eq_true in Hid. rewrite <- Hid.
        split; [done|]. intros Hnil. rewrite Hnil in Hin. by destruct Hin.
      * by destruct ps.
  - split.
    + intros a [= <-]. eexists.
      split; [apply list_elem_of_here|reflexivity].
    + done.
Qed.

(** A board state whose [activeProjectId] names one of its projects, or is
    [null] while there is no project, comes back unchanged when it is
    persisted and normalised. *)
Theorem normalizeState_roundtrip w (s : BoardState) :
  I5 s →
  (activeProjectId s = None → projects s = []) →
  normalizeState w (persisted s) = s.
Proof.
  intros Hvalid Hnull. apply normalize_persisted_fixed. cbv zeta.
  destruct (activeProjectId s) as [a|] eqn:Ha.
  - cbn [nullish]. destruct (Hvalid a Ha) as (project & Hin & Hid).
    assert (Hsome : existsb (λ project : Project,
                               bool_decide (Some (Project.id project) = Some a))
                            (projects s) = true).
    { apply existsb_exists. exists project.
      split; [by apply list_elem_of_In|].
      apply bool_decide_eq_true. by rewrite Hid. }
    by rewrite Hsome.
  - by rewrite (Hnull eq_refl).
Qed.

Lemma normalizeState_roundtrip_witness :
  normalizeState Sample.world (persisted (createInitialState Sample.world))
  = createInitialState Sample.world.
Proof.
  apply normalizeState_roundtrip.
  - intros a [= <-]. eexists.
    split; [apply list_elem_of_here|reflexivity].
  - discriminate.
Defined.

(** The legacy branch.  A single-project blob yields one project with the
    legacy id, titled by [title], else by [name], else 'Untitled project',
    without thumbnail, with the legacy lanes or three freshly generated
    default lanes; that project is the active one; every card keeps its own
    [projectId] or receives the legacy id; [isLoading] and [error] default
    to [false] and [null]. *)
Theorem normalizeState_legacy w (raw : Legacy.t) :
  let project := Legacy.project raw in
  let state := normalizeState w (Legacy raw) in
  ∃ normalized,
    projects state = [normalized]
    ∧ activeProjectId state = Some (LegacyProject.id project)
    ∧ Project.id normalized = LegacyProject.id project
    ∧ Project.thumbnailUrl normalized = None
    ∧ (∀ t, LegacyProject.title project = Some t → Project.title normalized = t)
    ∧ (∀ n, LegacyProject.title project = None →
            LegacyProject.name project = Some n →
            Project.title normalized = n)
    ∧ (LegacyProject.title project = None →
       LegacyProject.name project = None →
       Project.title normalized = "Untitled project")
    ∧ (∀ lanes, LegacyProject.lanes project = Some lanes →
                Project.lanes normalized = lanes)
    ∧ (LegacyProject.lanes project = None →
       Lane.title <$> Project.lanes normalized = ["Todo"; "Doing"; "Done"]
       ∧ Lane.id <$> Project.lanes normalized
         = [generateId w 0; generateId w 1; generateId w 2])
    ∧ (∀ id card,
         default ∅ (Legacy.cards raw) !! id = Some card →
         ∃ card',
           cards state !! id = Some card'
           ∧ card' = Card.with_projectId (Card.projectId card') card
           ∧ Card.projectId card'
             = default (LegacyProject.id project) (Card.projectId card))
    ∧ (∀ id, default ∅ (Legacy.cards raw) !! id = None →
             cards state !! id = None)
    ∧ (LegacyProject.id project ≠ "" →
       getActiveProject state = Some normalized)
    ∧ isLoading state = default false (Legacy.isLoading raw)
    ∧ error state = Legacy.error raw.
Proof.
  cbv zeta. eexists. split; [reflexivity|]. split; [reflexivity|].
  split; [reflexivity|]. split; [reflexivity|].
  cbn [Project.title Project.lanes].
  split; [by intros t ->|]. split; [by intros n -> ->|].
  split; [by intros -> ->|]. split; [by intros lanes ->|].
  split; [by intros ->|].
  split; [|split; [|split; [|done]]].
  - intros id card Hcard. cbn [normalizeState cards].
    rewrite lookup_fmap, Hcard. eexists. by split.
  - intros id Hcard. cbn [normalizeState cards].
    by rewrite lookup_fmap, Hcard.
  - intros Hnonempty. unfold getActiveProject.
    cbn [normalizeState activeProjectId projects Project.id].
    rewrite bool_decide_eq_false_2 by done. cbn [find Project.id].
    by rewrite bool_decide_eq_true_2.
Qed.

Lemma normalizeState_legacy_witness :
  ∃ normalized card',
    projects (normalizeState Sample.world (Legacy Scenario.legacyBlob))
    = [normalized]
    ∧ Project.title normalized = "Old board"
    ∧ Lane.title <$> Project.lanes normalized = ["Todo"; "Doing"; "Done"]
    ∧ cards (normalizeState Sample.world (Legacy Scenario.legacyBlob)) !! "c1"
      = Some card'
    ∧ Card.projectId card' = "old".
Proof.
  destruct (normalizeState_legacy Sample.world Scenario.legacyBlob)
    as (normalized & Hprojects & _ & _ & _ & _ & Hname & _ & _ & Hlanes
        & Hcards & _).
  destruct (Hcards "c1" (Sample.rawCard "c1" None) eq_refl)
    as (card' & Hcard & _ & Hproject).
  exists normalized, card'. split; [exact Hprojects|].
  split; [by apply Hname|]. split; [by apply Hlanes|].
  split; [exact Hcard|exact Hproject].
Defined.

(** * The cascade of DELETE_LANE and I1 *)


Lemma bind_imap_same {A B} (f : nat → A → A) (c : A → list B) (xs : list A) :
  (∀ i x, x ∈ xs → c (f i x) = c x) →
  imap f xs ≫= c = xs ≫= c.
Proof.
  revert f. induction xs as [|x xs IH]; intros f Hsame; [done|].
  rewrite imap_cons, !bind_cons. f_equal.
  - apply Hsame. by left.
  - apply IH. intros i y Hy. apply Hsame. by right.
Qed.

(** Lanes of distinct ids among which exactly the lane [target] lists the
    card [k]. *)
Lemma held_exactly k (lanes : list Lane.t) now (project : Project) target :
  NoDup (Lane.id <$> lanes) →
  target ∈ Lane.id <$> lanes →
  (∀ lane, lane ∈ lanes → k ∈ Lane.cardIds lane ↔ Lane.id lane = target) →
  heldIn k (Project.with_lanes lanes now project)
  = [(Project.id project, target)].
Proof.
  intros Hnodup Htarget Hmem.
  pose proof (heldIn_placed k (λ lane, lane) now
                (Project.with_lanes lanes now project) target) as Hplaced.
  cbn [Project.lanes Project.with_lanes] in Hplaced.
  rewrite list_fmap_id in Hplaced. apply Hplaced; [done| |].
  - apply list_elem_of_fmap in Htarget as (lane & -> & Hin). eauto.
  - intros lane Hin. split; [done|]. by apply Hmem.
Qed.

(** DELETE_LANE keeps I1 when the projects, and the lanes of the active
    project, have distinct ids: the cards of the deleted lane now belong to
    the first remaining lane, which lists them. *)
Theorem delete_lane_keeps_I1 w state id state' :
  distinctProjectIds state →
  distinctLaneIds state →
  I1 state →
  boardReducer w state (DELETE_LANE id) = Returns state' →
  I1 state'.
Proof.
  intros Hdistinct Hlanes Hinv Hrun.
  unfold boardReducer in Hrun. cbv zeta in Hrun.
  destruct (getActiveProject state) as [activeProject|] eqn:Hactive;
    [|by simplify_eq].
  specialize (Hlanes activeProject Hactive).
  destruct (Nat.leb_spec (length (Project.lanes activeProject)) 1)
    as [_|Hmany]; [by simplify_eq|].
  destruct (find _ (Project.lanes activeProject)) as [laneToDelete|] eqn:Hfind;
    [|by simplify_eq].
  apply find_some in Hfind as [Hdeleted Hid].
  apply list_elem_of_In in Hdeleted. apply bool_decide_eq_true in Hid.
  assert (Hremaining_nodup :
            NoDup (Lane.id <$> filter (λ l, Lane.id l ≠ id)
                                      (Project.lanes activeProject))).
  { eapply sublist_NoDup; [exact Hlanes|]. apply fmap_sublist, sublist_filter. }
  destruct (remaining_lanes_cons (Project.lanes activeProject) id Hlanes Hmany)
    as (firstLane & others & Hremaining).
  rewrite Hremaining in Hrun, Hremaining_nodup. cbn [head] in Hrun.
  destruct (reassignCards_lookup firstLane (clock w 0)
              (Lane.cardIds laneToDelete) (cards state))
    as (updatedCards & Hloop & Hcards).
  rewrite Hloop in Hrun.
  destruct (active_project_split state activeProject Hdistinct Hactive)
    as (before & after & Hsplit & Hothers).
  lazymatch type of Hrun with
  | context [mapActiveProject state ?u] =>
      rewrite (mapActiveProject_split state activeProject u before after
                 Hactive Hsplit Hothers) in Hrun
  end.
  injection Hrun as <-. cbn [from_option Datatypes.id].
  set (renumber := λ (index : nat) (lane : Lane.t),
         if bool_decide (Lane.id lane = Lane.id firstLane)
         then Lane.mk (Lane.id lane) (Lane.title lane) (Z.of_nat index)
                      (Lane.cardIds lane ++ Lane.cardIds laneToDelete)
         else Lane.with_order (Z.of_nat index) lane).
  assert (Hkept : ∀ lane, lane ∈ firstLane :: others ↔
                    lane ∈ Project.lanes activeProject ∧ Lane.id lane ≠ id).
  { intros lane. rewrite <- Hremaining.
    rewrite (list_elem_of_filter (λ l, Lane.id l ≠ id) _ lane). tauto. }
  assert (Hrenumber_ids : Lane.id <$> imap renumber (firstLane :: others)
                          = Lane.id <$> firstLane :: others).
  { apply imap_lane_ids. intros index lane. unfold renumber.
    by case_bool_decide. }
  intros k card' Hcard' Hlive. cbn [cards] in Hcard'.
  rewrite Hcards in Hcard'.
  erewrite lanesHolding_split by reflexivity.
  destruct (decide (k ∈ Lane.cardIds laneToDelete)) as [Hmoved|Hstays].
  - rewrite bool_decide_eq_true_2 in Hcard' by done.
    destruct (cards state !! k) as [card|] eqn:Hcard; [|done].
    injection Hcard' as <-.
    pose proof (Hinv k card Hcard Hlive) as Hheld.
    rewrite (lanesHolding_state_split state before after activeProject k
               Hsplit) in Hheld.
    assert (Hown : (Project.id activeProject, Lane.id laneToDelete)
                   ∈ heldIn k activeProject).
    { apply heldIn_elem. eauto. }
    assert (Hpair : (Project.id activeProject, Lane.id laneToDelete)
                    = (Card.projectId card, Card.laneId card)).
    { apply list_elem_of_singleton. rewrite <- Hheld, !elem_of_app. auto. }
    injection Hpair as Hproject Hlane. rewrite <- Hproject in Hheld.
    destruct (others_hold_nothing _ _ _ _ _ Hothers Hheld)
      as (Hbefore & Hafter & Hactive_held).
    rewrite Hbefore, Hafter, app_nil_r. cbn [app].
    unfold movedTo.
    cbn [Card.projectId Card.laneId Card.with_updatedAt Card.with_laneId].
    rewrite <- Hproject.
    apply (held_exactly k (imap renumber (firstLane :: others)) (clock w 0)
             activeProject (Lane.id firstLane)).
    + by rewrite Hrenumber_ids.
    + rewrite Hrenumber_ids. apply list_elem_of_here.
    + intros lane' Hin'.
      apply elem_of_lookup_imap in Hin' as (index & lane & -> & Hindex).
      apply list_elem_of_lookup_2, Hkept in Hindex as [Hin Hne].
      assert (Hnot : k ∉ Lane.cardIds lane).
      { intros Hk.
        pose proof (held_lane_id _ _ _ _ _ Hactive_held Hin Hk). congruence. }
      unfold renumber. case_bool_decide as Hfirst; cbn.
      * rewrite elem_of_app. tauto.
      * tauto.
  - rewrite bool_decide_eq_false_2 in Hcard' by done.
    rewrite <- (Hinv k card' Hcard' Hlive).
    rewrite (lanesHolding_state_split state before after activeProject k Hsplit).
    do 2 f_equal.
    change (imap renumber (firstLane :: others)
              ≫= (λ lane,
                    if bool_decide (k ∈ Lane.cardIds lane)
                    then [(Project.id activeProject, Lane.id lane)]
                    else [])
            = Project.lanes activeProject
                ≫= (λ lane,
                      if bool_decide (k ∈ Lane.cardIds lane)
                      then [(Project.id activeProject, Lane.id lane)]
                      else [])).
    rewrite bind_imap_same.
    + rewrite <- Hremaining. apply bind_filter_same.
      intros lane Hin Hgone. apply dec_stable in Hgone.
      assert (Hsame : lane = laneToDelete).
      { apply (NoDup_fmap_same Lane.id (Project.lanes activeProject));
          [done|done|done|congruence]. }
      subst lane. by rewrite bool_decide_eq_false_2.
    + intros index lane Hin. unfold renumber.
      destruct (bool_decide (Lane.id lane = Lane.id firstLane));
        cbn [Lane.cardIds Lane.id Lane.with_order]; [|done].
      assert (Hext : bool_decide (k ∈ Lane.cardIds lane
                                      ++ Lane.cardIds laneToDelete)
                     = bool_decide (k ∈ Lane.cardIds lane)).
      { apply bool_decide_ext. rewrite elem_of_app. tauto. }
      by rewrite Hext.
Qed.

Lemma delete_lane_keeps_I1_witness :
  ∃ state',
    boardReducer Sample.world Sample.twoLanes (DELETE_LANE "A") = Returns state'
    ∧ I1 state'.
Proof.
  eexists. split; [reflexivity|].
  eapply (delete_lane_keeps_I1 Sample.world Sample.twoLanes "A");
    [apply NoDup_singleton| |exact I1_twoLanes|reflexivity].
  intros activeProject [= <-]. by apply NoDup_two.
Defined.

(** * I1 under UPDATE_CARD and UNDO_CARD *)

Lemma mapActiveProject_same_lanes state activeProject now :
  getActiveProject state = Some activeProject →
  mapActiveProject state
    (Project.with_lanes ((λ lane, lane) <$> Project.lanes activeProject) now)
  = mapActiveProject state (Project.touch now).
Proof.
  intros Hactive. unfold mapActiveProject. rewrite Hactive.
  by rewrite list_fmap_id.
Qed.

Lemma mapActiveProject_kept_lanes state activeProject now :
  getActiveProject state = Some activeProject →
  mapActiveProject state
    (Project.with_lanes ((λ lane, lane) <$> Project.lanes activeProject) now)
  = mapActiveProject state
      (Project.with_lanes (Project.lanes activeProject) now).
Proof.
  intros Hactive. unfold mapActiveProject. rewrite Hactive.
  by rewrite list_fmap_id.
Qed.

(** UPDATE_CARD keeps I1 when the projects have distinct ids and the patch
    leaves [laneId], [projectId] and [isDeleted] alone. *)
Theorem update_card_keeps_I1 w state id updates state' :
  distinctProjectIds state →
  I1 state →
  CardUpdates.laneId updates = None →
  CardUpdates.projectId updates = None →
  CardUpdates.isDeleted updates = None →
  boardReducer w state (UPDATE_CARD id updates) = Returns state' →
  I1 state'.
Proof.
  intros Hdistinct Hinv Hlane Hproject Hdeleted Hrun.
  unfold boardReducer in Hrun. cbv zeta in Hrun.
  destruct (cards state !! id) as [existingCard|] eqn:Hcard;
    [|by apply absent_card_step in Hrun as ->].
  destruct (mapActiveProject state (Project.touch (clock w 0))) as [ps|]
    eqn:Hps; [|by simplify_eq].
  injection Hrun as <-.
  destruct (getActiveProject state) as [activeProject|] eqn:Hactive;
    [|by rewrite mapActiveProject_none in Hps].
  rewrite <- (mapActiveProject_same_lanes state activeProject _ Hactive)
    in Hps.
  eapply I1_lane_map; [done|done|done|exact Hps|done|].
  intros Hlive. cbn in Hlive. rewrite Hdeleted in Hlive. cbn in Hlive.
  cbn [Card.projectId Card.laneId Card.with_updatedAt CardUpdates.apply].
  rewrite Hlane, Hproject. cbn [from_option Datatypes.id].
  rewrite <- (Hinv id existingCard Hcard Hlive).
  destruct (active_project_split state activeProject Hdistinct Hactive)
    as (before & after & Hsplit & Hothers).
  rewrite (mapActiveProject_split _ _ _ _ _ Hactive Hsplit Hothers) in Hps.
  injection Hps as <-.
  erewrite lanesHolding_split by reflexivity.
  rewrite (lanesHolding_state_split state before after activeProject id Hsplit).
  by rewrite heldIn_same.
Qed.

Lemma update_card_keeps_I1_witness :
  ∃ state',
    boardReducer Sample.world Sample.twoLanes
                 (UPDATE_CARD "c1" Sample.makeUrgent) = Returns state'
    ∧ I1 state'.
Proof.
  eexists. split; [reflexivity|].
  eapply (update_card_keeps_I1 Sample.world Sample.twoLanes "c1"
            Sample.makeUrgent);
    [apply NoDup_singleton|exact I1_twoLanes|reflexivity..].
Defined.

(** UNDO_CARD keeps I1 whenever it does not bring a deleted card back: the
    projects and the lanes of the active project have distinct ids, the card
    is not deleted and belongs to the active project, and the last snapshot
    records the same project and a lane of that project. *)
Theorem undo_card_keeps_I1 w state activeProject id card earlier
    previousVersion :
  distinctProjectIds state →
  I1 state →
  getActiveProject state = Some activeProject →
  NoDup (Lane.id <$> Project.lanes activeProject) →
  cardVersions state !! id = Some (earlier ++ [previousVersion]) →
  cards state !! id = Some card →
  Card.isDeleted card = false →
  Card.projectId card = Project.id activeProject →
  CardData.projectId (CardVersion.data previousVersion)
  = Project.id activeProject →
  (∃ lane, lane ∈ Project.lanes activeProject
           ∧ Lane.id lane
             = CardData.laneId (CardVersion.data previousVersion)) →
  ∃ state', boardReducer w state (UNDO_CARD id) = Returns state' ∧ I1 state'.
Proof.
  intros Hdistinct Hinv Hactive Hlanes Hversions Hcard Hlive Hproject
    Hsnapshot Htarget.
  unfold boardReducer. cbv zeta.
  rewrite Hversions, last_snoc, Hactive, Hcard.
  destruct (active_project_split state activeProject Hdistinct Hactive)
    as (before & after & Hsplit & Hothers).
  pose proof (Hinv id card Hcard Hlive) as Hheld.
  rewrite (lanesHolding_state_split state before after activeProject id Hsplit),
    Hproject in Hheld.
  destruct (others_hold_nothing _ _ _ _ _ Hothers Hheld)
    as (Hbefore & Hafter & Hown).
  cbn [Card.laneId restoreFromData].
  case_bool_decide as Hmoved.
  - lazymatch goal with
    | |- context [mapActiveProject state ?u] =>
        pose proof (mapActiveProject_split state activeProject u before after
                      Hactive Hsplit Hothers) as Hps
    end.
    rewrite Hps. cbn [from_option Datatypes.id].
    eexists. split; [reflexivity|].
    eapply I1_lane_map; [done|done|done|exact Hps| |].
    + intros k lane Hne _. clear Hps. cbv beta.
      destruct (bool_decide (Lane.id lane = Card.laneId card)).
      * split; [done|]. cbn. rewrite filter_ne_elem. tauto.
      * destruct (bool_decide (Lane.id lane = _)); [|done].
        split; [done|]. cbn. rewrite elem_of_app, list_elem_of_singleton.
        tauto.
    + intros _. erewrite lanesHolding_split by reflexivity.
      rewrite Hbefore, Hafter, app_nil_r. cbn [app].
      cbn [Card.projectId Card.laneId restoreFromData]. rewrite Hsnapshot.
      apply heldIn_placed; [done|done|].
      intros lane Hin. cbv beta.
      destruct (decide (Lane.id lane = Card.laneId card)) as [Hfrom|Hfrom].
      * rewrite (bool_decide_eq_true_2 _ Hfrom). split; [done|]. cbn.
        rewrite filter_ne_elem. split; [tauto|]. congruence.
      * rewrite (bool_decide_eq_false_2 _ Hfrom).
        destruct (decide (Lane.id lane
                          = CardData.laneId (CardVersion.data previousVersion)))
          as [Hto|Hto].
        -- rewrite (bool_decide_eq_true_2 _ Hto). split; [done|]. cbn.
           rewrite elem_of_app, list_elem_of_singleton. tauto.
        -- rewrite (bool_decide_eq_false_2 _ Hto). split; [done|].
           split; [|done]. intros Hk.
           by pose proof (held_lane_id _ _ _ _ _ Hown Hin Hk).
  - rewrite <- (mapActiveProject_kept_lanes state activeProject _ Hactive).
    lazymatch goal with
    | |- context [mapActiveProject state ?u] =>
        pose proof (mapActiveProject_split state activeProject u before after
                      Hactive Hsplit Hothers) as Hps
    end.
    rewrite Hps. cbn [from_option Datatypes.id].
    eexists. split; [reflexivity|].
    eapply I1_lane_map; [done|done|done|exact Hps|done|].
    intros _. erewrite lanesHolding_split by reflexivity.
    rewrite Hbefore, Hafter, app_nil_r. cbn [app].
    rewrite heldIn_same by done.
    cbn [Card.projectId Card.laneId restoreFromData].
    by rewrite Hsnapshot, <- Hmoved.
Qed.

Lemma I1_afterMove : I1 Scenario.afterMove.
Proof.
  intros cardId card Hcard _. unfold Scenario.afterMove in Hcard.
  cbn [cards] in Hcard.
  repeat (apply lookup_insert_Some in Hcard as [[<- <-]|[_ Hcard]];
          [reflexivity|]).
  apply lookup_singleton_Some in Hcard as [<- <-]. reflexivity.
Qed.

Lemma undo_card_keeps_I1_witness :
  ∃ state',
    boardReducer Sample.world Scenario.afterMove (UNDO_CARD "c1")
    = Returns state'
    ∧ I1 state'.
Proof.
  apply (undo_card_keeps_I1 Sample.world Scenario.afterMove
           (Sample.project "p1" [Lane.mk "A" "Todo" 0 ["c2"];
                                 Lane.mk "B" "Done" 1 ["c1"; "c3"]])
           "c1" (Sample.card "c1" "p1" "B") []
           (createCardVersion Sample.world (Sample.card "c1" "p1" "A") [])).
  - apply NoDup_singleton.
  - exact I1_afterMove.
  - reflexivity.
  - by apply NoDup_two.
  - reflexivity.
  - reflexivity.
  - reflexivity.
  - reflexivity.
  - reflexivity.
  - exists (Lane.mk "A" "Todo" 0 ["c2"]). split; [apply list_elem_of_here|done].
Defined.
